(** * updatez: the MoneyBot update server ([server.py])

    A shallow embedding of the Flask service of [server.py] and of the
    part of [packaging.version] it calls, followed by the properties of
    the version store and of the check, download and upload handlers.

    Conventions of the embedding.
    - A Python [str] is a [string]: the UTF-8 bytes of its text.  The
      operations used here (equality, concatenation, matching of ASCII
      characters) agree on both views.
    - A Python [dict] is an association list in insertion order, which is
      the order [dict.items()] iterates in and [json] keeps.
    - A handler is a function of the world (the contents of
      [versions.json] and the files under [updates/]) and of the request;
      [upload_update] also returns the new world.
    - A raised exception is the [Raise] case of [result]; each handler
      catches it at its [except Exception] and answers 500.
    - The world is the one the service builds: [versions.json] is absent
      or holds what [save_versions] wrote (a dictionary of records with
      string and integer fields), and [updates/] exists and holds files
      only, since the service never creates a directory below it.  Files
      are identified by the text of their path.  Integers are unbounded;
      limits of the host (length of a file name, digits accepted by
      [int]) are outside the model. *)

From Stdlib Require Import NArith ZArith Lia Ascii String DecimalString DecimalN DecimalPos.
From Stdlib.Strings Require Import Byte.
From stdpp Require Import base strings list gmap.

Local Open Scope string_scope.
Local Open Scope list_scope.

(** ** Python values shared by the models *)

Abbreviation chars := (list ascii).

Definition code (c : ascii) : N := N_of_ascii c.

Definition str_chars (s : string) : chars := list_ascii_of_string s.

(** Exceptions that reach a handler's [except Exception]. *)
Inductive exn : Type :=
  | InvalidVersion (version : string)
  | FileNotFoundError (path : string)
  | ValueError (path : string).

Inductive result (A : Type) : Type :=
  | Ok (a : A)
  | Raise (e : exn).
Arguments Ok {A} a.
Arguments Raise {A} e.

Definition bind {A B : Type} (m : result A) (k : A -> result B) : result B :=
  match m with
  | Ok a => k a
  | Raise e => Raise e
  end.

Notation "'let*' x ':=' m 'in' k" := (bind m (fun x => k))
  (at level 10, x name, m at level 100, k at level 200).

(** ** [packaging.version]

    [parse(version)] is [Version(version)]: the string is matched in full
    against the PEP 440 pattern (case-insensitively, surrounding
    whitespace allowed) and [InvalidVersion] is raised when it does not
    match.  Versions are compared through [_cmpkey].  The matcher below
    follows the pattern group by group; every group of the pattern is
    deterministic (the library itself compiles it with possessive
    quantifiers), so no backtracking is needed.  Letters and digits are
    the ASCII ones, as the pattern asks; [\s] is Unicode whitespace. *)
Module PkgVersion.

Definition is_digit (c : ascii) : bool :=
  (48 <=? code c)%N && (code c <=? 57)%N.

Definition is_lower (c : ascii) : bool :=
  (97 <=? code c)%N && (code c <=? 122)%N.

Definition is_upper (c : ascii) : bool :=
  (65 <=? code c)%N && (code c <=? 90)%N.

(** [str.lower()] on the ASCII letters, the only ones the pattern
    matches. *)
Definition lower (c : ascii) : ascii :=
  if is_upper c then ascii_of_N (code c + 32) else c.

(** [[._-]] *)
Definition is_sep (c : ascii) : bool :=
  (code c =? 46)%N || (code c =? 95)%N || (code c =? 45)%N.

(** [[a-z0-9]] after lowering. *)
Definition is_alnum (c : ascii) : bool := is_digit c || is_lower c.

(** One-byte characters of [\s]: TAB, LF, VT, FF, CR, FS, GS, RS, US and
    the space. *)
Definition is_space1 (c : ascii) : bool :=
  ((9 <=? code c)%N && (code c <=? 13)%N)
  || ((28 <=? code c)%N && (code c <=? 32)%N).

(** Two-byte characters of [\s]: U+0085 and U+00A0. *)
Definition is_space2 (c1 c2 : ascii) : bool :=
  (code c1 =? 194)%N && ((code c2 =? 133)%N || (code c2 =? 160)%N).

(** Three-byte characters of [\s]: U+1680, U+2000 to U+200A, U+2028,
    U+2029, U+202F, U+205F and U+3000. *)
Definition is_space3 (c1 c2 c3 : ascii) : bool :=
  ((code c1 =? 225)%N && (code c2 =? 154)%N && (code c3 =? 128)%N)
  || ((code c1 =? 226)%N && (code c2 =? 128)%N
      && (((128 <=? code c3)%N && (code c3 <=? 138)%N)
          || (code c3 =? 168)%N || (code c3 =? 169)%N || (code c3 =? 175)%N))
  || ((code c1 =? 226)%N && (code c2 =? 129)%N && (code c3 =? 159)%N)
  || ((code c1 =? 227)%N && (code c2 =? 128)%N && (code c3 =? 128)%N).

(** The leading [\s*]. *)
Fixpoint lstrip (l : chars) : chars :=
  match l with
  | c1 :: l1 =>
      if is_space1 c1 then lstrip l1
      else
        match l1 with
        | c2 :: l2 =>
            if is_space2 c1 c2 then lstrip l2
            else
              match l2 with
              | c3 :: l3 => if is_space3 c1 c2 c3 then lstrip l3 else l
              | [] => l
              end
        | [] => l
        end
  | [] => []
  end.

(** The trailing [\s*], read from the last byte backwards. *)
Fixpoint lstrip_rev (l : chars) : chars :=
  match l with
  | c1 :: l1 =>
      if is_space1 c1 then lstrip_rev l1
      else
        match l1 with
        | c2 :: l2 =>
            if is_space2 c2 c1 then lstrip_rev l2
            else
              match l2 with
              | c3 :: l3 => if is_space3 c3 c2 c1 then lstrip_rev l3 else l
              | [] => l
              end
        | [] => l
        end
  | [] => []
  end.

Definition strip (l : chars) : chars := rev (lstrip_rev (rev (lstrip l))).

(** [int(text)] for a run of ASCII digits, most significant first;
    [acc] is the value of the digits already read. *)
Definition digit_val (c : ascii) : N := (code c - 48)%N.

Fixpoint int_from (acc : N) (ds : chars) : N :=
  match ds with
  | [] => acc
  | d :: ds' => int_from (10 * acc + digit_val d)%N ds'
  end.

Definition int (ds : chars) : N := int_from 0 ds.

(** [[0-9]*]: the longest run of digits and what follows it. *)
Fixpoint digits (l : chars) : chars * chars :=
  match l with
  | c :: l' =>
      if is_digit c then let '(ds, r) := digits l' in (c :: ds, r)
      else ([], l)
  | [] => ([], [])
  end.

(** A literal word of the pattern at the head of the input. *)
Fixpoint lit (w l : chars) : option chars :=
  match w with
  | [] => Some l
  | a :: w' =>
      match l with
      | c :: l' => if Ascii.eqb a c then lit w' l' else None
      | [] => None
      end
  end.

(** An alternation of literal words, tried from left to right; each
    word comes with the value it stands for. *)
Fixpoint alt {A : Type} (ws : list (string * A)) (l : chars)
  : option (A * chars) :=
  match ws with
  | [] => None
  | (w, a) :: ws' =>
      match lit (str_chars w) l with
      | Some r => Some (a, r)
      | None => alt ws' l
      end
  end.

(** [[._-]?] *)
Definition opt_sep (l : chars) : chars :=
  match l with
  | c :: l' => if is_sep c then l' else l
  | [] => []
  end.

(** [([0-9]+)?] with [_parse_letter_version]'s reading of the number: a
    missing number is 0. *)
Definition opt_number (l : chars) : N * chars :=
  let '(ds, r) := digits l in (int ds, r).

(** [v?] *)
Definition opt_v (l : chars) : chars :=
  match l with
  | c :: l' => if (code c =? 118)%N then l' else l
  | [] => []
  end.

(** [(?:(?P<epoch>[0-9]+)!)?]; no epoch reads as 0. *)
Definition epoch_seg (l : chars) : N * chars :=
  match digits l with
  | (d :: ds, c :: r) => if (code c =? 33)%N then (int (d :: ds), r) else (0%N, l)
  | _ => (0%N, l)
  end.

(** [(?:\.[0-9]+)*] after the first component of the release: [cur] is
    the value of the digits read so far of the component in progress
    and [done] the components before it. *)
Fixpoint release_rest (cur : N) (done : list N) (l : chars)
  : list N * chars :=
  match l with
  | c :: l' =>
      if is_digit c then release_rest (10 * cur + digit_val c)%N done l'
      else if (code c =? 46)%N then
        match l' with
        | d :: l'' =>
            if is_digit d then release_rest (digit_val d) (done ++ [cur]) l''
            else (done ++ [cur], l)
        | [] => (done ++ [cur], l)
        end
      else (done ++ [cur], l)
  | [] => (done ++ [cur], [])
  end.

(** The [release] group, dot-separated runs of digits, read as
    [tuple(int(i) for i in release.split('.'))]. *)
Definition release_seg (l : chars) : option (list N * chars) :=
  match l with
  | c :: l' => if is_digit c then Some (release_rest (digit_val c) [] l') else None
  | [] => None
  end.

(** The normalised pre-release letters; Python compares them as the
    strings "a" < "b" < "rc". *)
Inductive pre_letter : Type := PreA | PreB | PreRC.

Definition pre_words : list (string * pre_letter) :=
  [("alpha", PreA); ("a", PreA); ("beta", PreB); ("b", PreB);
   ("preview", PreRC); ("pre", PreRC); ("c", PreRC); ("rc", PreRC)].

Definition post_words : list (string * unit) :=
  [("post", tt); ("rev", tt); ("r", tt)].

Definition dev_words : list (string * unit) := [("dev", tt)].

(** The [pre] group. *)
Definition pre_seg (l : chars) : option (pre_letter * N) * chars :=
  match alt pre_words (opt_sep l) with
  | Some (letter, r) =>
      let '(n, r') := opt_number (opt_sep r) in (Some (letter, n), r')
  | None => (None, l)
  end.

(** The [post] group: [-N], or a separated word with an optional
    number. *)
Definition post_seg (l : chars) : option N * chars :=
  let worded :=
    match alt post_words (opt_sep l) with
    | Some (_, r) => let '(n, r') := opt_number (opt_sep r) in (Some n, r')
    | None => (None, l)
    end in
  match l with
  | c :: l' =>
      if (code c =? 45)%N then
        match digits l' with
        | (d :: ds, r) => (Some (int (d :: ds)), r)
        | ([], _) => worded
        end
      else worded
  | [] => worded
  end.

(** The [dev] group. *)
Definition dev_seg (l : chars) : option N * chars :=
  match alt dev_words (opt_sep l) with
  | Some (_, r) => let '(n, r') := opt_number (opt_sep r) in (Some n, r')
  | None => (None, l)
  end.

(** A part of the local version, as [_parse_local_version] leaves it. *)
Inductive local_part : Type :=
  | LNum (n : N)
  | LStr (s : chars).

(** [[a-z0-9]+] *)
Fixpoint alnums (l : chars) : chars * chars :=
  match l with
  | c :: l' =>
      if is_alnum c then let '(w, r) := alnums l' in (c :: w, r)
      else ([], l)
  | [] => ([], [])
  end.

Definition mk_local_part (w : chars) : local_part :=
  if forallb is_digit w then LNum (int w) else LStr w.

(** [(?:[._-][a-z0-9]+)*] after a first part [cur] (in reverse) of the
    local version. *)
Fixpoint local_rest (cur : chars) (done : list local_part) (l : chars)
  : list local_part * chars :=
  match l with
  | c :: l' =>
      if is_alnum c then local_rest (c :: cur) done l'
      else if is_sep c then
        match l' with
        | d :: l'' =>
            if is_alnum d then
              local_rest [d] (done ++ [mk_local_part (rev cur)]) l''
            else (done ++ [mk_local_part (rev cur)], l)
        | [] => (done ++ [mk_local_part (rev cur)], l)
        end
      else (done ++ [mk_local_part (rev cur)], l)
  | [] => (done ++ [mk_local_part (rev cur)], [])
  end.

(** The optional [local] group after a plus sign. *)
Definition local_seg (l : chars) : option (list local_part) * chars :=
  match l with
  | p :: c :: l' =>
      if (code p =? 43)%N && is_alnum c then
        let '(parts, r) := local_rest [c] [] l' in (Some parts, r)
      else (None, l)
  | _ => (None, l)
  end.

Record Version : Type := mkVersion {
  epoch : N;
  release : list N;
  pre : option (pre_letter * N);
  post : option N;
  dev : option N;
  local : option (list local_part)
}.

(** [Version.__init__] on the characters of the string. *)
Definition parse_chars (l : chars) : option Version :=
  let l0 := opt_v (map lower (strip l)) in
  let '(e, l1) := epoch_seg l0 in
  match release_seg l1 with
  | None => None
  | Some (rel, l2) =>
      let '(p, l3) := pre_seg l2 in
      let '(po, l4) := post_seg l3 in
      let '(d, l5) := dev_seg l4 in
      let '(lo, l6) := local_seg l5 in
      match l6 with
      | [] => Some (mkVersion e rel p po d lo)
      | _ :: _ => None
      end
  end.

Definition parse (version : string) : result Version :=
  match parse_chars (str_chars version) with
  | Some v => Ok v
  | None => Raise (InvalidVersion version)
  end.

(** *** Ordering: [_cmpkey] and the comparison of keys *)

(** A value, or one of the sentinels [NegativeInfinity] and [Infinity]
    of [packaging._structures]. *)
Inductive ext (A : Type) : Type :=
  | NegativeInfinity
  | Fin (a : A)
  | Infinity.
Arguments NegativeInfinity {A}.
Arguments Fin {A} a.
Arguments Infinity {A}.

Definition cmp_ext {A : Type} (cmp : A -> A -> comparison) (x y : ext A)
  : comparison :=
  match x, y with
  | NegativeInfinity, NegativeInfinity => Eq
  | NegativeInfinity, _ => Lt
  | Fin _, NegativeInfinity => Gt
  | Fin a, Fin b => cmp a b
  | Fin _, Infinity => Lt
  | Infinity, Infinity => Eq
  | Infinity, _ => Gt
  end.

(** Python's comparison of two tuples (and of two strings): the first
    position where they differ decides, and a proper prefix is
    smaller. *)
Fixpoint cmp_tuple {A : Type} (cmp : A -> A -> comparison) (a b : list A)
  : comparison :=
  match a, b with
  | [], [] => Eq
  | [], _ :: _ => Lt
  | _ :: _, [] => Gt
  | x :: a', y :: b' =>
      match cmp x y with
      | Eq => cmp_tuple cmp a' b'
      | c => c
      end
  end.

Definition cmp_pair {A B : Type} (cmpA : A -> A -> comparison)
    (cmpB : B -> B -> comparison) (x y : A * B) : comparison :=
  match cmpA (fst x) (fst y) with
  | Eq => cmpB (snd x) (snd y)
  | c => c
  end.

Definition cmp_str (a b : chars) : comparison :=
  cmp_tuple (fun x y => N.compare (code x) (code y)) a b.

Definition letter_str (p : pre_letter) : string :=
  match p with
  | PreA => "a"
  | PreB => "b"
  | PreRC => "rc"
  end.

Definition cmp_pre (x y : pre_letter * N) : comparison :=
  cmp_pair (fun a b => cmp_str (str_chars (letter_str a)) (str_chars (letter_str b)))
           N.compare x y.

(** [itertools.dropwhile] *)
Fixpoint dropwhile {A : Type} (p : A -> bool) (l : list A) : list A :=
  match l with
  | [] => []
  | x :: l' => if p x then dropwhile p l' else l
  end.

(** An entry of the [_local] key: [(i, "")] for a number and
    [(NegativeInfinity, s)] for a word. *)
Definition local_key (p : local_part) : ext N * chars :=
  match p with
  | LNum i => (Fin i, [])
  | LStr s => (NegativeInfinity, s)
  end.

Record CmpKey : Type := mkCmpKey {
  k_epoch : N;
  k_release : list N;
  k_pre : ext (pre_letter * N);
  k_post : ext N;
  k_dev : ext N;
  k_local : ext (list (ext N * chars))
}.

Definition _cmpkey (v : Version) : CmpKey :=
  let _release := rev (dropwhile (N.eqb 0) (rev (release v))) in
  let _pre :=
    match pre v, post v, dev v with
    | None, None, Some _ => NegativeInfinity
    | None, _, _ => Infinity
    | Some p, _, _ => Fin p
    end in
  let _post :=
    match post v with
    | None => NegativeInfinity
    | Some n => Fin n
    end in
  let _dev :=
    match dev v with
    | None => Infinity
    | Some n => Fin n
    end in
  let _local :=
    match local v with
    | None => NegativeInfinity
    | Some parts => Fin (map local_key parts)
    end in
  mkCmpKey (epoch v) _release _pre _post _dev _local.

(** The comparison of two keys, which are 6-tuples. *)
Definition cmp_key (a b : CmpKey) : comparison :=
  match N.compare (k_epoch a) (k_epoch b) with
  | Eq =>
    match cmp_tuple N.compare (k_release a) (k_release b) with
    | Eq =>
      match cmp_ext cmp_pre (k_pre a) (k_pre b) with
      | Eq =>
        match cmp_ext N.compare (k_post a) (k_post b) with
        | Eq =>
          match cmp_ext N.compare (k_dev a) (k_dev b) with
          | Eq =>
              cmp_ext (cmp_tuple (cmp_pair (cmp_ext N.compare) cmp_str))
                      (k_local a) (k_local b)
          | c => c
          end
        | c => c
        end
      | c => c
      end
    | c => c
    end
  | c => c
  end.

(** [Version.__gt__]: [self._key > other._key]. *)
Definition gt (a b : Version) : bool :=
  match cmp_key (_cmpkey a) (_cmpkey b) with
  | Gt => true
  | _ => false
  end.

End PkgVersion.

(** ** Configuration *)

Definition UPLOAD_KEY : string := "moneybot-secret-2024".
Definition UPDATES_DIR : string := "updates".

(** ** Data model *)

Abbreviation bytes := (list byte).

(** The dictionary stored for a version.  A field is [None] when the key
    is absent, which is what [info.get(key, default)] tests. *)
Module Info.
Record t : Type := mk {
  version : option string;
  changelog : option string;
  file_path : option string;
  file_size : option Z;
  uploaded_at : option string
}.

(** [not info]: the dictionary has no key. *)
Definition is_empty (info : t) : bool :=
  match version info, changelog info, file_path info, file_size info,
        uploaded_at info with
  | None, None, None, None, None => true
  | _, _, _, _, _ => false
  end.
End Info.

(** A [dict] with string keys, in insertion order. *)
Abbreviation dict V := (list (string * V)).

(** [d.get(k)] and [k in d]. *)
Fixpoint dict_get {V : Type} (d : dict V) (k : string) : option V :=
  match d with
  | [] => None
  | (k', v) :: d' => if String.eqb k' k then Some v else dict_get d' k
  end.

(** [d[k] = v]: an existing key keeps its place, a new key goes last. *)
Fixpoint dict_set {V : Type} (d : dict V) (k : string) (v : V) : dict V :=
  match d with
  | [] => [(k, v)]
  | (k', v') :: d' =>
      if String.eqb k' k then (k, v) :: d' else (k', v') :: dict_set d' k v
  end.

Definition keys {V : Type} (d : dict V) : list string := map fst d.

Abbreviation Store := (dict Info.t).

Record World : Type := mkWorld {
  versions_file : option Store;     (* [versions.json], when it exists *)
  files : gmap string bytes         (* the files, by path *)
}.

(** ** Version store *)

Definition load_versions (w : World) : Store :=
  match versions_file w with
  | Some versions => versions
  | None => []
  end.

Definition save_versions (w : World) (versions_data : Store) : World :=
  mkWorld (Some versions_data) (files w).

(** [pkg_version.parse(a) > pkg_version.parse(b)]: both operands are
    parsed, the left one first, before they are compared. *)
Definition version_gt (a b : string) : result bool :=
  let* va := PkgVersion.parse a in
  let* vb := PkgVersion.parse b in
  Ok (PkgVersion.gt va vb).

(** The loop of [get_latest_version] over [versions.items()], from the
    current values of [latest] and [latest_version]. *)
Fixpoint latest_loop (items : Store) (latest : option Info.t)
    (latest_version : option string) : result (option Info.t) :=
  match items with
  | [] => Ok latest
  | (ver, info) :: items' =>
      let* newer :=
        match latest_version with
        | None => Ok true
        | Some lv => version_gt ver lv
        end in
      if newer then latest_loop items' (Some info) (Some ver)
      else latest_loop items' latest latest_version
  end.

Definition get_latest_version (w : World) : result (option Info.t) :=
  let versions := load_versions w in
  match versions with
  | [] => Ok None
  | _ :: _ => latest_loop versions None None
  end.

(** ** Requests and responses *)

Record CheckRequest : Type := mkCheckRequest {
  current_version_arg : option string;   (* [request.args], key current_version *)
  scheme : string;
  host : string
}.

Record FileStorage : Type := mkFileStorage {
  filename : string;
  content : bytes
}.

Record UploadRequest : Type := mkUploadRequest {
  key_field : option string;             (* [request.form], key key *)
  version_field : option string;
  changelog_field : option string;
  file_part : option FileStorage;        (* [request.files], key file *)
  st_mtime : string                      (* the text of the saved file's mtime *)
}.

Inductive Body : Type :=
  (* version, changelog, download_url, file_size *)
  | UpdateInfo (version changelog download_url : string) (file_size : Z)
  (* error: a fixed message *)
  | Error (message : string)
  (* error: [str(e)] of a caught exception *)
  | ErrorOf (e : exn)
  (* success, with version_info: version, changelog, file_size *)
  | Uploaded (version changelog : string) (file_size : Z)
  (* [send_file]: the bytes, as_attachment, download_name, mimetype *)
  | Attachment (data : bytes) (as_attachment : bool)
      (download_name mimetype : string)
  | Health
  | ServiceInfo (latest_version : option string)
  | NoVersions
  (* an exception no handler caught: the framework's own answer *)
  | InternalServerError.

Abbreviation Response := (Body * Z)%type.

Definition status (r : Response) : Z := snd r.
Definition body (r : Response) : Body := fst r.

Definition or_default {A : Type} (o : option A) (d : A) : A :=
  match o with
  | Some a => a
  | None => d
  end.

(** The [except Exception] of a handler. *)
Definition catch (r : result Response) : Response :=
  match r with
  | Ok resp => resp
  | Raise e => (ErrorOf e, 500%Z)
  end.

(** ** GET /update/check *)

Definition no_update (current_version : string) : Response :=
  (UpdateInfo current_version "" "" 0, 200%Z).

Definition check_update (w : World) (request : CheckRequest) : Response :=
  let current_version := or_default (current_version_arg request) "0.0.0" in
  catch (
    let* latest := get_latest_version w in
    match latest with
    | None => Ok (no_update current_version)
    | Some info =>
        if Info.is_empty info then Ok (no_update current_version)
        else
          let latest_version := or_default (Info.version info) "0.0.0" in
          let* newer := version_gt latest_version current_version in
          if newer then
            let download_url :=
              scheme request +:+ "://" +:+ host request
                +:+ "/update/download/" +:+ latest_version in
            Ok (UpdateInfo latest_version
                  (or_default (Info.changelog info) "Nova atualização disponível")
                  download_url
                  (or_default (Info.file_size info) 0%Z),
                200%Z)
          else Ok (no_update current_version)
    end).

(** ** GET /update/download/<version> *)

(** [os.path.exists]: the empty path names nothing. *)
Definition os_path_exists (w : World) (path : string) : bool :=
  if String.eqb path "" then false
  else match files w !! path with Some _ => true | None => false end.

Definition send_file (w : World) (path : string) (as_attachment : bool)
    (download_name mimetype : string) : result Response :=
  match files w !! path with
  | Some data => Ok (Attachment data as_attachment download_name mimetype, 200%Z)
  | None => Raise (FileNotFoundError path)
  end.

(** [not file_path] for the result of [info.get('file_path')]. *)
Definition falsy (s : option string) : bool :=
  match s with
  | None => true
  | Some p => String.eqb p ""
  end.

Definition download_update (w : World) (version : string) : Response :=
  catch (
    let versions := load_versions w in
    match dict_get versions version with
    | None => Ok (Error "Versão não encontrada", 404%Z)
    | Some info =>
        let file_path := Info.file_path info in
        if falsy file_path || negb (os_path_exists w (or_default file_path ""))
        then Ok (Error "Arquivo não encontrado", 404%Z)
        else send_file w (or_default file_path "") true "MoneyBot.exe"
                       "application/octet-stream"
    end).

(** ** POST /update/upload *)

(** [UPDATES_DIR / name], as text. *)
Definition path_div (dir name : string) : string := dir +:+ "/" +:+ name.

Definition has_char (n : N) (s : string) : bool :=
  existsb (fun c => (code c =? n)%N) (str_chars s).

(** [file.save(UPDATES_DIR / name)] opens the path for writing and copies
    the upload into it.  A NUL byte in the path is refused by [open]; a
    name with a separator names a file in a directory below [updates/],
    and there is none. *)
Definition file_save (w : World) (dir name : string) (data : bytes)
  : result World :=
  let path := path_div dir name in
  if has_char 0 name then Raise (ValueError path)
  else if has_char 47 name then Raise (FileNotFoundError path)
  else Ok (mkWorld (versions_file w) (<[path := data]> (files w))).

(** [os.path.getsize] of a file just written. *)
Definition getsize (data : bytes) : Z := Z.of_nat (length data).

(** The name [f"MoneyBot_{version}.exe"] and the path
    [UPDATES_DIR / f"MoneyBot_{version}.exe"] of a version's artifact. *)
Definition artifact_name (version : string) : string :=
  "MoneyBot_" +:+ version +:+ ".exe".

Definition artifact_path (version : string) : string :=
  path_div UPDATES_DIR (artifact_name version).

Definition upload_update (w : World) (request : UploadRequest)
  : World * Response :=
  let upload_key := key_field request in
  if negb (bool_decide (upload_key = Some UPLOAD_KEY)) then
    (w, (Error "Chave inválida", 401%Z))
  else
    let version := version_field request in
    let changelog := or_default (changelog_field request) "Nova atualização" in
    match version with
    | None => (w, (Error "Versão não fornecida", 400%Z))
    | Some version =>
        if String.eqb version "" then (w, (Error "Versão não fornecida", 400%Z))
        else
          match file_part request with
          | None => (w, (Error "Arquivo não fornecido", 400%Z))
          | Some file =>
              if String.eqb (filename file) "" then
                (w, (Error "Arquivo vazio", 400%Z))
              else
                let file_path := artifact_path version in
                match file_save w UPDATES_DIR (artifact_name version)
                                (content file) with
                | Raise e =>
                    (* [except Exception]: nothing was written *)
                    (w, (ErrorOf e, 500%Z))
                | Ok w1 =>
                    let file_size := getsize (content file) in
                    let versions := load_versions w1 in
                    let versions :=
                      dict_set versions version
                        (Info.mk (Some version) (Some changelog)
                           (Some file_path) (Some file_size)
                           (Some (st_mtime request))) in
                    let w2 := save_versions w1 versions in
                    (w2, (Uploaded version changelog file_size, 200%Z))
                end
          end
    end.

(** ** GET /health and GET / *)

Definition health : Response := (Health, 200%Z).

Definition index (w : World) : Response :=
  match get_latest_version w with
  | Raise _ => (InternalServerError, 500%Z)
  | Ok None => (NoVersions, 200%Z)
  | Ok (Some latest) =>
      if Info.is_empty latest then (NoVersions, 200%Z)
      else (ServiceInfo (Info.version latest), 200%Z)
  end.

(** ** The service as a transition system *)

Inductive Request : Type :=
  | GetCheck (r : CheckRequest)
  | GetDownload (version : string)
  | PostUpload (r : UploadRequest)
  | GetHealth
  | GetIndex.

Definition handle (w : World) (r : Request) : World * Response :=
  match r with
  | GetCheck r => (w, check_update w r)
  | GetDownload version => (w, download_update w version)
  | PostUpload r => upload_update w r
  | GetHealth => (w, health)
  | GetIndex => (w, index w)
  end.

(** The world of a fresh deployment: no [versions.json], an empty
    [updates/]. *)
Definition initial : World := mkWorld None ∅.

(** The worlds the service can be in. *)
Inductive reachable : World -> Prop :=
  | reachable_initial : reachable initial
  | reachable_step w r : reachable w -> reachable (fst (handle w r)).

(** ** The specification's vocabulary

    These definitions follow the words of the specification, not the
    code: the text of a semantic version and the order of releases. *)




(** The invariant of the store: the version field of a record is the key
    the record is stored under. *)
Definition store_inv (versions : Store) : Prop :=
  ∀ k info, (k, info) ∈ versions → Info.version info = Some k.

(** The store read through the field instead of the key. *)
Definition rekey (versions : Store) : Store :=
  map (fun '(k, info) => (or_default (Info.version info) "0.0.0", info)) versions.





(** The record [upload_update] stores for a version. *)
Definition uploaded_info (version : string) (request : UploadRequest)
    (file : FileStorage) : Info.t :=
  Info.mk (Some version)
    (Some (or_default (changelog_field request) "Nova atualização"))
    (Some (artifact_path version))
    (Some (getsize (content file)))
    (Some (st_mtime request)).

(** The conditions under which [upload_update] goes through: the key is
    the shared one, a version and a named file are given, and the
    artifact's name is one a file can have. *)
Definition accepted (request : UploadRequest) (version : string)
    (file : FileStorage) : Prop :=
  key_field request = Some UPLOAD_KEY
  ∧ version_field request = Some version
  ∧ version ≠ ""
  ∧ file_part request = Some file
  ∧ filename file ≠ ""
  ∧ has_char 0 (artifact_name version) = false
  ∧ has_char 47 (artifact_name version) = false.

(** [parse] raises on the text. *)
Definition unparseable (version : string) : Prop :=
  PkgVersion.parse version = Raise (InvalidVersion version).

(** ** Sample requests and worlds *)

Definition sample_file : FileStorage :=
  mkFileStorage "MoneyBot.exe" [x4d; x5a; x90].

Definition upload_of (version : string) (changelog : option string)
  : UploadRequest :=
  mkUploadRequest (Some UPLOAD_KEY) (Some version) changelog
                  (Some sample_file) "1700000000.0".

Definition check_of (current_version : option string) : CheckRequest :=
  mkCheckRequest current_version "https" "updates.example".

(** After one upload of 1.0.0 with a changelog. *)
Definition world_1_0_0 : World :=
  fst (upload_update initial (upload_of "1.0.0" (Some "Primeira versão"))).

(** After one upload of 1.0.0 whose changelog field is present and
    blank. *)
Definition world_blank : World :=
  fst (upload_update initial (upload_of "1.0.0" (Some ""))).


(** After uploads of 1.0.9, 1.0.10 and 1.0.2, in this order. *)
Definition world_three : World :=
  fst (upload_update
         (fst (upload_update
                 (fst (upload_update initial (upload_of "1.0.9" None)))
                 (upload_of "1.0.10" None)))
         (upload_of "1.0.2" None)).

(** A store whose record for 1.0.0 points at a file that is not there. *)
Definition world_missing_file : World :=
  mkWorld (Some (load_versions world_1_0_0)) ∅.

(** ** Vocabulary of the further properties *)

(** A three-way comparison that behaves as one: reflexive, antisymmetric
    by [CompOpp], transitive, and whose [Eq] is a congruence. *)
Record lawful {A : Type} (cmp : A -> A -> comparison) : Prop := mk_lawful {
  law_refl : ∀ x, cmp x x = Eq;
  law_sym : ∀ x y, cmp y x = CompOpp (cmp x y);
  law_trans : ∀ c x y z, cmp x y = c → cmp y z = c → cmp x z = c;
  law_eq_l : ∀ x y z, cmp x y = Eq → cmp x z = cmp y z
}.

(** The key of a version as the nested pairs Python's tuple comparison
    walks through. *)
Definition key_tuple (k : PkgVersion.CmpKey) :=
  (PkgVersion.k_epoch k,
   (PkgVersion.k_release k,
    (PkgVersion.k_pre k,
     (PkgVersion.k_post k, (PkgVersion.k_dev k, PkgVersion.k_local k))))).

(** A store all of whose keys [parse] accepts. *)
Definition parseable_keys (versions : Store) : Prop :=
  ∀ k, k ∈ keys versions → ∃ v, PkgVersion.parse k = Ok v.

(** [k], stored with [info], is the first of the greatest keys of the
    items: greater than every key before it, and no key after it is
    greater. *)
Definition first_max (items : Store) (k : string) (info : Info.t) : Prop :=
  ∃ before after,
    items = before ++ (k, info) :: after
    ∧ (∀ k', k' ∈ keys before → version_gt k k' = Ok true)
    ∧ (∀ k', k' ∈ keys after → version_gt k' k = Ok false).

(** What the service keeps true of the world: the keys of the store are
    distinct, and every record is one [upload_update] wrote, whose
    artifact is on disk with the recorded size. *)
Definition world_inv (w : World) : Prop :=
  NoDup (keys (load_versions w))
  ∧ ∀ k info,
      (k, info) ∈ load_versions w →
      ∃ changelog data mtime,
        info = Info.mk (Some k) (Some changelog) (Some (artifact_path k))
                       (Some (getsize data)) (Some mtime)
        ∧ files w !! artifact_path k = Some data.

(** * Properties *)

(** ** Reading decimal digits *)

Section Decimal.
Import PkgVersion.

Lemma str_chars_app (a b : string) :
  str_chars (a +:+ b) = str_chars a ++ str_chars b.
Proof.
  induction a as [|c a IH]; simpl; [reflexivity|].
  unfold str_chars in *. simpl. rewrite IH. reflexivity.
Qed.





End Decimal.

(** ** Parsing a dotted triple of digit runs *)

Section ParseTriple.
Import PkgVersion.

















End ParseTriple.

(** ** Ordering of dotted triples *)

Section OrderTriple.
Import PkgVersion.








End OrderTriple.

(** ** The scan for the latest version *)

Section LatestScan.




End LatestScan.

(** ** Dictionaries *)

Section Dict.
Context {V : Type}.
Implicit Types (d : dict V) (k : string) (v : V).

Lemma dict_get_set_eq d k v : dict_get (dict_set d k v) k = Some v.
Proof.
  induction d as [|[k' v'] d IH]; simpl.
  - rewrite String.eqb_refl. reflexivity.
  - destruct (String.eqb_spec k' k) as [->|Hne]; simpl.
    + rewrite String.eqb_refl. reflexivity.
    + destruct (String.eqb_spec k' k); [congruence | exact IH].
Qed.

Lemma dict_get_set_ne d k k' v :
  k ≠ k' → dict_get (dict_set d k v) k' = dict_get d k'.
Proof.
  intros Hne. induction d as [|[k1 v1] d IH]; simpl.
  - destruct (String.eqb_spec k k'); [congruence | reflexivity].
  - destruct (String.eqb_spec k1 k) as [->|Hk1]; simpl.
    + destruct (String.eqb_spec k k'); [congruence | reflexivity].
    + rewrite IH. reflexivity.
Qed.

Lemma keys_dict_set_in d k v : k ∈ keys d → keys (dict_set d k v) = keys d.
Proof.
  induction d as [|[k' v'] d IH]; simpl; intros Hin.
  - inversion Hin.
  - destruct (String.eqb_spec k' k) as [->|Hne]; simpl; [reflexivity|].
    f_equal. apply IH. apply elem_of_cons in Hin as [->|Hin]; [congruence | exact Hin].
Qed.

Lemma keys_dict_set_notin d k v :
  k ∉ keys d → keys (dict_set d k v) = keys d ++ [k].
Proof.
  induction d as [|[k' v'] d IH]; simpl; intros Hnin; [reflexivity|].
  apply not_elem_of_cons in Hnin as [Hne Hnin].
  destruct (String.eqb_spec k' k) as [->|_]; [congruence|].
  simpl. f_equal. apply IH, Hnin.
Qed.

Lemma elem_of_dict_set d k v k' v' :
  (k', v') ∈ dict_set d k v → (k', v') = (k, v) ∨ (k', v') ∈ d.
Proof.
  induction d as [|[k1 v1] d IH]; simpl; intros Hin.
  - apply list_elem_of_singleton in Hin. left. exact Hin.
  - destruct (String.eqb_spec k1 k) as [->|Hne].
    + apply elem_of_cons in Hin as [Hin|Hin]; [left; exact Hin|].
      right. right. exact Hin.
    + apply elem_of_cons in Hin as [Hin|Hin].
      * right. rewrite Hin. left.
      * destruct (IH Hin) as [E|E]; [left; exact E | right; right; exact E].
Qed.


Lemma dict_get_None_keys d k : dict_get d k = None ↔ k ∉ keys d.
Proof.
  induction d as [|[k1 v1] d IH]; simpl.
  - split; [intros _ H; inversion H | reflexivity].
  - destruct (String.eqb_spec k1 k) as [->|Hne].
    + split; [discriminate|]. intros H. exfalso. apply H. left.
    + rewrite IH. split.
      * intros H Hc. apply elem_of_cons in Hc as [Hc|Hc]; [congruence | tauto].
      * intros H Hc. apply H. right. exact Hc.
Qed.


Lemma NoDup_keys_dict_set d k v :
  NoDup (keys d) → NoDup (keys (dict_set d k v)).
Proof.
  intros Hnd. destruct (decide (k ∈ keys d)) as [Hin|Hnin].
  - rewrite keys_dict_set_in by exact Hin. exact Hnd.
  - rewrite keys_dict_set_notin by exact Hnin.
    apply NoDup_app. split; [exact Hnd|]. split.
    + intros x Hx Hx'. apply list_elem_of_singleton in Hx'. congruence.
    + apply NoDup_singleton.
Qed.
End Dict.

(** ** What an upload does *)

Section Upload.

Lemma upload_update_accepted w request version file :
  accepted request version file →
  upload_update w request
  = (mkWorld (Some (dict_set (load_versions w) version
                      (uploaded_info version request file)))
             (<[artifact_path version := content file]> (files w)),
     (Uploaded version (or_default (changelog_field request) "Nova atualização")
               (getsize (content file)), 200%Z)).
Proof.
  intros (Hkey & Hver & Hne & Hfile & Hname & H0 & H47).
  unfold upload_update. rewrite Hkey, Hver, Hfile.
  rewrite bool_decide_eq_true_2 by reflexivity. simpl negb. cbv iota.
  destruct (String.eqb_spec version ""); [congruence|].
  destruct (String.eqb_spec (filename file) ""); [congruence|].
  unfold file_save. fold (artifact_name version). rewrite H0, H47.
  reflexivity.
Qed.

(** An upload either goes through, or answers with another status than
    200 and leaves the world as it was. *)
Lemma upload_update_cases w request :
  (∃ version file, accepted request version file)
  ∨ (fst (upload_update w request) = w
     ∧ status (snd (upload_update w request)) ≠ 200%Z).
Proof.
  unfold upload_update, accepted.
  destruct (bool_decide (key_field request = Some UPLOAD_KEY)) eqn:Hkey;
    simpl negb; cbv iota; [| right; split; [reflexivity | discriminate]].
  apply bool_decide_eq_true_1 in Hkey.
  destruct (version_field request) as [version|] eqn:Hver;
    [| right; split; [reflexivity | discriminate]].
  destruct (String.eqb_spec version "") as [->|Hne];
    [right; split; [reflexivity | discriminate]|].
  destruct (file_part request) as [file|] eqn:Hfile;
    [| right; split; [reflexivity | discriminate]].
  destruct (String.eqb_spec (filename file) "") as [Hfn|Hfn];
    [right; split; [reflexivity | discriminate]|].
  unfold file_save. fold (artifact_name version).
  destruct (has_char 0 (artifact_name version)) eqn:H0;
    [right; split; [reflexivity | discriminate]|].
  destruct (has_char 47 (artifact_name version)) eqn:H47;
    [right; split; [reflexivity | discriminate]|].
  left. exists version, file. repeat split; assumption.
Qed.

Lemma upload_update_ok w request :
  status (snd (upload_update w request)) = 200%Z →
  ∃ version file, accepted request version file.
Proof.
  intros H200. destruct (upload_update_cases w request) as [H|[_ H]];
    [exact H | contradiction].
Qed.
End Upload.

(** ** The invariant of the store *)

Section Invariant.

Lemma store_inv_nil : store_inv [].
Proof. intros k info H. inversion H. Qed.

Lemma store_inv_upload w request :
  store_inv (load_versions w) →
  store_inv (load_versions (fst (upload_update w request))).
Proof.
  intros Hinv.
  destruct (upload_update_cases w request) as [(version & file & Hacc)|[-> _]];
    [| exact Hinv].
  rewrite (upload_update_accepted w _ _ _ Hacc). simpl.
  intros k info Hin. apply elem_of_dict_set in Hin as [[= -> ->]|Hin].
  - reflexivity.
  - apply Hinv, Hin.
Qed.

Lemma store_inv_handle w r :
  store_inv (load_versions w) →
  store_inv (load_versions (fst (handle w r))).
Proof.
  destruct r; simpl; auto using store_inv_upload.
Qed.

Lemma reachable_store_inv w : reachable w → store_inv (load_versions w).
Proof.
  induction 1 as [|w r _ IH]; [apply store_inv_nil | apply store_inv_handle, IH].
Qed.

Lemma store_inv_rekey versions : store_inv versions → rekey versions = versions.
Proof.
  induction versions as [|[k info] versions IH]; intros Hinv; simpl; [reflexivity|].
  rewrite (Hinv k info) by left. simpl. f_equal.
  apply IH. intros k' info' Hin. apply Hinv. right. exact Hin.
Qed.

Lemma store_inv_not_empty versions k info :
  store_inv versions → (k, info) ∈ versions → Info.is_empty info = false.
Proof.
  intros Hinv Hin. unfold Info.is_empty. rewrite (Hinv k info Hin). reflexivity.
Qed.
End Invariant.

(** ** Versions that do not parse *)

Section Unparseable.

Lemma parse_cases version :
  (∃ v, PkgVersion.parse version = Ok v) ∨ unparseable version.
Proof.
  unfold unparseable, PkgVersion.parse.
  destruct (PkgVersion.parse_chars (str_chars version)) as [v|];
    [left; exists v; reflexivity | right; reflexivity].
Qed.

Lemma version_gt_raise_l a b :
  unparseable a → version_gt a b = Raise (InvalidVersion a).
Proof. unfold version_gt. intros ->. reflexivity. Qed.

Lemma version_gt_raise_r a b :
  unparseable b → ∃ e, version_gt a b = Raise e.
Proof.
  unfold version_gt. intros Hb.
  destruct (parse_cases a) as [[va ->]| ->]; simpl.
  - rewrite Hb. simpl. eauto.
  - eauto.
Qed.

Lemma version_gt_Ok_l a b r : version_gt a b = Ok r → ¬ unparseable a.
Proof. intros H Ha. rewrite version_gt_raise_l in H by exact Ha. discriminate. Qed.

(** Once a candidate is held, every key the loop meets is parsed. *)
Lemma latest_loop_unparseable items latest lv :
  (∃ k, k ∈ keys items ∧ unparseable k) →
  ∃ e, latest_loop items (Some latest) (Some lv) = Raise e.
Proof.
  revert latest lv.
  induction items as [|[k1 info1] items IH]; intros latest lv (k & Hin & Hbad).
  - inversion Hin.
  - simpl. destruct (version_gt k1 lv) as [newer|e] eqn:Hgt; simpl; [|eauto].
    assert (Htail : ∃ k, k ∈ keys items ∧ unparseable k).
    { simpl in Hin. apply elem_of_cons in Hin as [->|Hin]; [|eauto].
      exfalso. eapply version_gt_Ok_l; eassumption. }
    destruct newer; apply IH, Htail.
Qed.

Lemma latest_loop_Some items latest lv r :
  latest_loop items (Some latest) lv = Ok r → ∃ info, r = Some info.
Proof.
  revert latest lv.
  induction items as [|[k1 info1] items IH]; intros latest lv; simpl.
  - intros [= <-]. eauto.
  - destruct (match lv with None => Ok true | Some lv0 => version_gt k1 lv0 end)
      as [[|]|e]; simpl; [apply IH | apply IH | discriminate].
Qed.

Lemma latest_loop_elem items latest lv info :
  latest_loop items latest lv = Ok (Some info) →
  latest = Some info ∨ ∃ k, (k, info) ∈ items.
Proof.
  revert latest lv.
  induction items as [|[k1 info1] items IH]; intros latest lv; simpl.
  - intros [= ->]. left. reflexivity.
  - destruct (match lv with None => Ok true | Some lv0 => version_gt k1 lv0 end)
      as [[|]|e]; simpl; [| |discriminate]; intros H; apply IH in H.
    + destruct H as [[= ->]|[k H]]; right; [exists k1; left | exists k; right; exact H].
    + destruct H as [H|[k H]]; [left; exact H | right; exists k; right; exact H].
Qed.

Lemma get_latest_version_elem w info :
  get_latest_version w = Ok (Some info) → ∃ k, (k, info) ∈ load_versions w.
Proof.
  unfold get_latest_version.
  destruct (load_versions w) as [|kv items]; [discriminate|].
  intros H. apply latest_loop_elem in H as [H|H]; [discriminate | exact H].
Qed.

Lemma get_latest_version_nonempty w r :
  load_versions w ≠ [] → get_latest_version w = Ok r → ∃ info, r = Some info.
Proof.
  unfold get_latest_version.
  destruct (load_versions w) as [|[k1 info1] items]; [congruence|].
  intros _. simpl. apply latest_loop_Some.
Qed.

(** The scan compares as soon as the store has two keys, and then a key
    that does not parse makes it raise. *)
Lemma get_latest_version_unparseable w :
  (∃ k, k ∈ keys (load_versions w) ∧ unparseable k) →
  (2 <= length (load_versions w))%nat →
  ∃ e, get_latest_version w = Raise e.
Proof.
  intros (k & Hin & Hbad) Hlen. unfold get_latest_version.
  destruct (load_versions w) as [|[k1 info1] [|[k2 info2] items]];
    [simpl in Hlen; lia | simpl in Hlen; lia |].
  change (latest_loop ((k1, info1) :: (k2, info2) :: items) None None)
    with (latest_loop ((k2, info2) :: items) (Some info1) (Some k1)).
  simpl in Hin. apply elem_of_cons in Hin as [->|Hin].
  - simpl. destruct (version_gt_raise_r k2 k1 Hbad) as [e ->]. simpl. eauto.
  - apply latest_loop_unparseable. exists k. split; [exact Hin | exact Hbad].
Qed.


(** With the store's invariant and a version published, a current
    version that does not parse makes the check fail. *)
Lemma check_update_unparseable_current w request cv :
  store_inv (load_versions w) → load_versions w ≠ [] →
  current_version_arg request = Some cv → unparseable cv →
  ∃ e, check_update w request = (ErrorOf e, 500%Z).
Proof.
  intros Hinv Hne Hcv Hbad. unfold check_update. rewrite Hcv. simpl or_default.
  destruct (get_latest_version w) as [r|e] eqn:Hlatest; simpl; [|eauto].
  destruct (get_latest_version_nonempty w r Hne Hlatest) as [info ->].
  destruct (get_latest_version_elem w info Hlatest) as [k Hin].
  rewrite (store_inv_not_empty _ _ _ Hinv Hin), (Hinv k info Hin).
  simpl or_default.
  destruct (version_gt_raise_r k cv Hbad) as [e ->]. simpl. eauto.
Qed.
End Unparseable.

(** ** [packaging.version] on sample texts *)

Section Samples.
Import PkgVersion.

Example parse_plain :
  parse "1.0.10" = Ok (mkVersion 0 [1; 0; 10]%N None None None None).
Proof. reflexivity. Qed.

Example parse_prefixed_padded :
  parse " v01.2.3 " = Ok (mkVersion 0 [1; 2; 3]%N None None None None).
Proof. reflexivity. Qed.

Example parse_suffixes :
  parse "2!1.0-RC.1.post2.dev3+Ubuntu-12"
  = Ok (mkVersion 2 [1; 0]%N (Some (PreRC, 1%N)) (Some 2%N) (Some 3%N)
          (Some [LStr (str_chars "ubuntu"); LNum 12])).
Proof. reflexivity. Qed.

Example parse_implicit_post :
  parse "1.0-1" = Ok (mkVersion 0 [1; 0]%N None (Some 1%N) None None).
Proof. reflexivity. Qed.

Example parse_word : parse "banana" = Raise (InvalidVersion "banana").
Proof. reflexivity. Qed.

Example parse_empty : parse "" = Raise (InvalidVersion "").
Proof. reflexivity. Qed.

Example parse_trailing_dot : parse "1.0." = Raise (InvalidVersion "1.0.").
Proof. reflexivity. Qed.

(** Trailing zeros of the release do not count. *)
Example gt_trailing_zeros :
  version_gt "1.0.0" "1" = Ok false ∧ version_gt "1" "1.0.0" = Ok false.
Proof. split; reflexivity. Qed.

(** dev < pre-release < release < post-release < local. *)
Example gt_suffix_order :
  version_gt "1.0a1" "1.0.dev1" = Ok true
  ∧ version_gt "1.0" "1.0rc2" = Ok true
  ∧ version_gt "1.0.post1" "1.0" = Ok true
  ∧ version_gt "1.0+local" "1.0" = Ok true
  ∧ version_gt "1.0+2" "1.0+abc" = Ok true.
Proof. repeat split. Qed.

Example gt_unparseable_operand :
  version_gt "banana" "1.0" = Raise (InvalidVersion "banana")
  ∧ version_gt "1.0" "banana" = Raise (InvalidVersion "banana").
Proof. split; reflexivity. Qed.
End Samples.

(** * The claims *)

(** ** Version ordering *)



(** ** Versions are not validated *)




(** ** GET /update/check *)

(** C3, the claim as stated fails: the store holds 1.0.0 with a blank
    changelog, the client is at 0.9.0, and the check answers with the
    blank changelog, not with the fallback text. *)
Lemma check_update_blank_changelog :
  dict_get (load_versions world_blank) "1.0.0"
  = Some (Info.mk (Some "1.0.0") (Some "") (Some "updates/MoneyBot_1.0.0.exe")
                  (Some 3%Z) (Some "1700000000.0"))
  ∧ check_update world_blank (check_of (Some "0.9.0"))
    = (UpdateInfo "1.0.0" "" "https://updates.example/update/download/1.0.0" 3,
       200%Z).
Proof. split; reflexivity. Qed.

(** C3, as the code has it.  When the scan finds a latest record and its
    version is greater than the client's current version, the check
    answers 200 with that version, the stored changelog as it is (the
    text "Nova atualização disponível", which is not empty, only when the
    record has no changelog), the URL made of the request's scheme and
    host, the download route and the version, and the stored file size
    (0 when the record has none). *)
Theorem check_update_available (w : World) (request : CheckRequest)
    (info : Info.t) :
  let current_version := or_default (current_version_arg request) "0.0.0" in
  let latest_version := or_default (Info.version info) "0.0.0" in
  get_latest_version w = Ok (Some info) →
  Info.is_empty info = false →
  version_gt latest_version current_version = Ok true →
  check_update w request
  = (UpdateInfo latest_version
       (match Info.changelog info with
        | Some stored => stored
        | None => "Nova atualização disponível"
        end)
       (scheme request +:+ "://" +:+ host request +:+ "/update/download/"
          +:+ latest_version)
       (match Info.file_size info with
        | Some size => size
        | None => 0%Z
        end),
     200%Z)
  ∧ "Nova atualização disponível" ≠ "".
Proof.
  intros current_version latest_version Hlatest Hne Hgt.
  split; [|discriminate].
  unfold check_update. fold current_version. rewrite Hlatest. simpl bind.
  rewrite Hne. fold latest_version. rewrite Hgt. reflexivity.
Qed.

Lemma check_update_available_witness :
  check_update world_1_0_0 (check_of (Some "0.9.0"))
  = (UpdateInfo "1.0.0" "Primeira versão"
       "https://updates.example/update/download/1.0.0" 3, 200%Z)
  ∧ "Nova atualização disponível" ≠ "".
Proof.
  exact (check_update_available world_1_0_0 (check_of (Some "0.9.0"))
           (Info.mk (Some "1.0.0") (Some "Primeira versão")
                    (Some "updates/MoneyBot_1.0.0.exe") (Some 3%Z)
                    (Some "1700000000.0"))
           eq_refl eq_refl eq_refl).
Defined.

(** C4. Against a store with no version, the check answers 200 with the
    client's current version (0.0.0 when the parameter is absent), an
    empty changelog, an empty download URL and size 0. *)
Theorem check_update_empty_store (w : World) (request : CheckRequest) :
  load_versions w = [] →
  check_update w request
  = (UpdateInfo (or_default (current_version_arg request) "0.0.0") "" "" 0,
     200%Z).
Proof.
  intros Hempty. unfold check_update, get_latest_version.
  rewrite Hempty. reflexivity.
Qed.

Lemma check_update_empty_store_witness :
  load_versions initial = []
  ∧ check_update initial (check_of (Some "1.2.3"))
    = (UpdateInfo "1.2.3" "" "" 0, 200%Z).
Proof.
  split; [reflexivity|].
  exact (check_update_empty_store initial (check_of (Some "1.2.3")) eq_refl).
Defined.

(** C7, the claim as stated fails: with 1.0.0 published, a check whose
    current version is the word banana is answered 500 with the
    exception, where the current version 0.0.0 gets the update; and
    against the empty store the word is echoed, not 0.0.0. *)
Lemma check_update_malformed_current_version :
  unparseable "banana"
  ∧ check_update world_1_0_0 (check_of (Some "banana"))
    = (ErrorOf (InvalidVersion "banana"), 500%Z)
  ∧ check_update world_1_0_0 (check_of (Some "0.0.0"))
    = (UpdateInfo "1.0.0" "Primeira versão"
         "https://updates.example/update/download/1.0.0" 3, 200%Z)
  ∧ check_update initial (check_of (Some "banana"))
    = (UpdateInfo "banana" "" "" 0, 200%Z).
Proof. repeat split. Qed.

(** C7, as the code has it.  The current version is 0.0.0 when the query
    parameter is absent, and only then.  A current version that does not
    parse is used as it is: against a store with no version it is echoed
    with status 200, and in a world the service can reach with a version
    published the check is answered 500 with the exception it caught. *)
Theorem current_version_default :
  (∀ w scheme host,
      check_update w (mkCheckRequest None scheme host)
      = check_update w (mkCheckRequest (Some "0.0.0") scheme host))
  ∧ (∀ w request cv,
        current_version_arg request = Some cv → unparseable cv →
        (load_versions w = [] →
         check_update w request = (UpdateInfo cv "" "" 0, 200%Z))
        ∧ (reachable w → load_versions w ≠ [] →
           ∃ e, check_update w request = (ErrorOf e, 500%Z))).
Proof.
  split; [reflexivity|].
  intros w request cv Hcv Hbad. split.
  - intros Hempty. unfold check_update, get_latest_version.
    rewrite Hempty, Hcv. reflexivity.
  - intros Hreach Hne.
    eapply check_update_unparseable_current;
      [apply reachable_store_inv, Hreach | exact Hne | exact Hcv | exact Hbad].
Qed.

Lemma current_version_default_witness :
  unparseable "banana"
  ∧ check_update initial (check_of (Some "banana"))
    = (UpdateInfo "banana" "" "" 0, 200%Z)
  ∧ reachable world_1_0_0
  ∧ load_versions world_1_0_0 ≠ []
  ∧ ∃ e, check_update world_1_0_0 (check_of (Some "banana")) = (ErrorOf e, 500%Z).
Proof.
  assert (Hbad : unparseable "banana") by reflexivity.
  assert (Hreach : reachable world_1_0_0).
  { exact (reachable_step initial
             (PostUpload (upload_of "1.0.0" (Some "Primeira versão")))
             reachable_initial). }
  assert (Hne : load_versions world_1_0_0 ≠ []) by discriminate.
  destruct (proj2 current_version_default initial (check_of (Some "banana"))
              "banana" eq_refl Hbad) as [Hecho _].
  destruct (proj2 current_version_default world_1_0_0 (check_of (Some "banana"))
              "banana" eq_refl Hbad) as [_ Hfail].
  split; [exact Hbad|]. split; [exact (Hecho eq_refl)|].
  split; [exact Hreach|]. split; [exact Hne|].
  exact (Hfail Hreach Hne).
Defined.

(** ** GET /update/download/<version> *)

(** C6. A download of a version that is not a key of the store is
    answered 404 with the version-not-found message.  When the version is
    a key but the path its record gives does not exist, the answer is 404
    with the file-not-found message.  When the path exists, the answer is
    the file's bytes as an attachment named MoneyBot.exe, whatever the
    version, of type application/octet-stream. *)
Theorem download_update_outcomes (w : World) (version : string) :
  (dict_get (load_versions w) version = None →
   download_update w version = (Error "Versão não encontrada", 404%Z))
  ∧ (∀ info,
        dict_get (load_versions w) version = Some info →
        (∀ p, Info.file_path info = Some p → os_path_exists w p = false) →
        download_update w version = (Error "Arquivo não encontrado", 404%Z))
  ∧ (∀ info p,
        dict_get (load_versions w) version = Some info →
        Info.file_path info = Some p → os_path_exists w p = true →
        ∃ data,
          files w !! p = Some data
          ∧ download_update w version
            = (Attachment data true "MoneyBot.exe" "application/octet-stream",
               200%Z)).
Proof.
  unfold download_update. repeat split.
  - intros ->. reflexivity.
  - intros info -> Hmissing. simpl.
    destruct (Info.file_path info) as [p|]; [|reflexivity].
    simpl. rewrite (Hmissing p eq_refl), orb_true_r. reflexivity.
  - intros info p -> -> Hexists. simpl. rewrite Hexists.
    unfold os_path_exists in Hexists. unfold send_file.
    destruct (String.eqb p ""); [discriminate|].
    destruct (files w !! p) as [data|]; [|discriminate].
    exists data. split; reflexivity.
Qed.

Lemma download_update_outcomes_witness :
  (dict_get (load_versions world_1_0_0) "2.0.0" = None
   ∧ download_update world_1_0_0 "2.0.0" = (Error "Versão não encontrada", 404%Z))
  ∧ (download_update world_missing_file "1.0.0"
     = (Error "Arquivo não encontrado", 404%Z))
  ∧ (∃ data,
        files world_1_0_0 !! "updates/MoneyBot_1.0.0.exe" = Some data
        ∧ download_update world_1_0_0 "1.0.0"
          = (Attachment data true "MoneyBot.exe" "application/octet-stream",
             200%Z)).
Proof.
  split; [split; [reflexivity|]|split].
  - exact (proj1 (download_update_outcomes world_1_0_0 "2.0.0") eq_refl).
  - refine (proj1 (proj2 (download_update_outcomes world_missing_file "1.0.0"))
              _ eq_refl _).
    intros p [= <-]. reflexivity.
  - exact (proj2 (proj2 (download_update_outcomes world_1_0_0 "1.0.0"))
             _ "updates/MoneyBot_1.0.0.exe" eq_refl eq_refl eq_refl).
Defined.

(** ** POST /update/upload *)

(** C5. An upload whose key is not the shared secret, or has no key, is
    answered 401, and the world (the store and the files) is the same
    afterwards. *)
Theorem upload_update_wrong_key (w : World) (request : UploadRequest) :
  key_field request ≠ Some UPLOAD_KEY →
  upload_update w request = (w, (Error "Chave inválida", 401%Z)).
Proof.
  intros Hkey. unfold upload_update.
  rewrite bool_decide_eq_false_2 by exact Hkey. reflexivity.
Qed.

Lemma upload_update_wrong_key_witness :
  upload_update world_1_0_0
    (mkUploadRequest (Some "moneybot-secret-2025") (Some "9.9.9") None
                     (Some sample_file) "1700000001.0")
  = (world_1_0_0, (Error "Chave inválida", 401%Z)).
Proof.
  apply (upload_update_wrong_key world_1_0_0). discriminate.
Defined.

(** C8. A successful upload of a version that is already a key of the
    store replaces that version's record in place, with the new
    changelog and file size: the keys of the store, their order and
    their number are the same, the other records are untouched, no key
    is duplicated, and the whole store is what [versions.json] holds
    afterwards. *)
Theorem reupload_overwrites (w : World) (request : UploadRequest)
    (version : string) :
  let w' := fst (upload_update w request) in
  version_field request = Some version →
  version ∈ keys (load_versions w) →
  status (snd (upload_update w request)) = 200%Z →
  ∃ file info,
    file_part request = Some file
    ∧ dict_get (load_versions w') version = Some info
    ∧ Info.changelog info
      = Some (or_default (changelog_field request) "Nova atualização")
    ∧ Info.file_size info = Some (Z.of_nat (length (content file)))
    ∧ keys (load_versions w') = keys (load_versions w)
    ∧ length (load_versions w') = length (load_versions w)
    ∧ (∀ k, k ≠ version →
            dict_get (load_versions w') k = dict_get (load_versions w) k)
    ∧ (NoDup (keys (load_versions w)) → NoDup (keys (load_versions w')))
    ∧ versions_file w'
      = Some (dict_set (load_versions w) version info).
Proof.
  intros w' Hver Hin H200.
  destruct (upload_update_ok w request H200) as (version' & file & Hacc).
  assert (version' = version) as ->.
  { destruct Hacc as (_ & Hver' & _). congruence. }
  exists file, (uploaded_info version request file).
  subst w'. rewrite (upload_update_accepted w _ _ _ Hacc).
  cbn [fst load_versions versions_file].
  assert (Hkeys : keys (dict_set (load_versions w) version
                          (uploaded_info version request file))
                  = keys (load_versions w))
    by (apply keys_dict_set_in, Hin).
  split; [apply Hacc|]. split; [apply dict_get_set_eq|].
  split; [reflexivity|]. split; [reflexivity|]. split; [exact Hkeys|].
  split.
  { apply (f_equal (@length string)) in Hkeys. unfold keys in Hkeys.
    rewrite !length_map in Hkeys. exact Hkeys. }
  split; [intros k Hk; apply dict_get_set_ne; congruence|].
  split; [apply NoDup_keys_dict_set | reflexivity].
Qed.

Lemma reupload_overwrites_witness :
  ∃ file info,
    file_part (upload_of "1.0.0" (Some "Correções")) = Some file
    ∧ dict_get (load_versions
                  (fst (upload_update world_1_0_0
                          (upload_of "1.0.0" (Some "Correções"))))) "1.0.0"
      = Some info
    ∧ Info.changelog info = Some "Correções"
    ∧ keys (load_versions
              (fst (upload_update world_1_0_0
                      (upload_of "1.0.0" (Some "Correções")))))
      = ["1.0.0"].
Proof.
  destruct (reupload_overwrites world_1_0_0
              (upload_of "1.0.0" (Some "Correções")) "1.0.0"
              eq_refl (list_elem_of_here _ _) eq_refl)
    as (file & info & Hfile & Hget & Hlog & _ & Hkeys & _).
  exists file, info. repeat split; assumption.
Defined.

(** C9. An upload answered 200 has written the uploaded bytes to the
    path [updates/MoneyBot_<version>.exe], a function of the version
    alone, which names a file directly in the artifacts directory; the
    bytes replace whatever the path held, every other file is as before,
    and the path is the one the version's record carries. *)
Theorem upload_persists_artifact (w : World) (request : UploadRequest) :
  let w' := fst (upload_update w request) in
  status (snd (upload_update w request)) = 200%Z →
  ∃ version file,
    version_field request = Some version
    ∧ file_part request = Some file
    ∧ artifact_path version = "updates/MoneyBot_" +:+ version +:+ ".exe"
    ∧ artifact_path version = UPDATES_DIR +:+ "/" +:+ artifact_name version
    ∧ has_char 47 (artifact_name version) = false
    ∧ files w' !! artifact_path version = Some (content file)
    ∧ files w' = <[artifact_path version := content file]> (files w)
    ∧ (∀ p, p ≠ artifact_path version → files w' !! p = files w !! p)
    ∧ (∃ info, dict_get (load_versions w') version = Some info
               ∧ Info.file_path info = Some (artifact_path version)).
Proof.
  intros w' H200.
  destruct (upload_update_ok w request H200) as (version & file & Hacc).
  exists version, file. subst w'.
  rewrite (upload_update_accepted w _ _ _ Hacc).
  cbn [fst load_versions versions_file files].
  destruct Hacc as (_ & Hver & _ & Hfile & _ & _ & H47).
  split; [exact Hver|]. split; [exact Hfile|].
  split; [reflexivity|]. split; [reflexivity|]. split; [exact H47|].
  split; [apply lookup_insert_eq|]. split; [reflexivity|].
  split; [intros p Hp; apply lookup_insert_ne; congruence|].
  exists (uploaded_info version request file).
  split; [apply dict_get_set_eq | reflexivity].
Qed.

Lemma upload_persists_artifact_witness :
  ∃ version file,
    version_field (upload_of "1.0.0" (Some "Correções")) = Some version
    ∧ file_part (upload_of "1.0.0" (Some "Correções")) = Some file
    ∧ files (fst (upload_update world_1_0_0
                    (upload_of "1.0.0" (Some "Correções"))))
        !! artifact_path version
      = Some (content file).
Proof.
  destruct (upload_persists_artifact world_1_0_0
              (upload_of "1.0.0" (Some "Correções")) eq_refl)
    as (version & file & Hver & Hfile & _ & _ & _ & Hbytes & _).
  exists version, file. repeat split; assumption.
Defined.

(** ** The store's invariant *)

(** C10. Every record of the store carries, in its version field, the key
    it is stored under.  This holds of the empty store, every request
    keeps it (only an upload changes the world at all), so it holds in
    every world the service can reach; there the record the
    latest-version scan returns is stored under the version it carries,
    and the scan gives the same result when it reads the field instead
    of the key. *)
Theorem store_keys_match_version_field :
  store_inv (load_versions initial)
  ∧ (∀ w r, store_inv (load_versions w) →
            store_inv (load_versions (fst (handle w r))))
  ∧ (∀ w r, (∀ upload, r ≠ PostUpload upload) → fst (handle w r) = w)
  ∧ (∀ w, reachable w →
          store_inv (load_versions w)
          ∧ (∀ info, get_latest_version w = Ok (Some info) →
                     ∃ k, (k, info) ∈ load_versions w
                          ∧ Info.version info = Some k)
          ∧ get_latest_version (save_versions w (rekey (load_versions w)))
            = get_latest_version w).
Proof.
  split; [apply store_inv_nil|].
  split; [apply store_inv_handle|].
  split.
  { intros w r Hr. destruct r; try reflexivity. exfalso. eapply Hr. reflexivity. }
  intros w Hreach. pose proof (reachable_store_inv w Hreach) as Hinv.
  split; [exact Hinv|]. split.
  - intros info Hlatest.
    destruct (get_latest_version_elem w info Hlatest) as [k Hin].
    exists k. split; [exact Hin | apply Hinv, Hin].
  - unfold get_latest_version, save_versions. cbn [load_versions versions_file].
    rewrite store_inv_rekey by exact Hinv. reflexivity.
Qed.

Lemma store_keys_match_version_field_witness :
  reachable world_three
  ∧ store_inv (load_versions world_three)
  ∧ (∃ k info, get_latest_version world_three = Ok (Some info)
               ∧ (k, info) ∈ load_versions world_three
               ∧ Info.version info = Some k).
Proof.
  assert (Hreach : reachable world_three).
  { exact (reachable_step _ (PostUpload (upload_of "1.0.2" None))
             (reachable_step _ (PostUpload (upload_of "1.0.10" None))
                (reachable_step _ (PostUpload (upload_of "1.0.9" None))
                   reachable_initial))). }
  destruct (proj2 (proj2 (proj2 store_keys_match_version_field))
              world_three Hreach) as (Hinv & Hscan & _).
  split; [exact Hreach|]. split; [exact Hinv|].
  destruct (Hscan (Info.mk (Some "1.0.10") (Some "Nova atualização")
                     (Some "updates/MoneyBot_1.0.10.exe") (Some 3%Z)
                     (Some "1700000000.0")) eq_refl) as (k & Hin & Hk).
  exists k. eexists. split; [reflexivity|]. split; [exact Hin | exact Hk].
Defined.

(** * Further properties *)

(** ** The order of versions is an order *)

Section Lawful.
Import PkgVersion.

Lemma law_eq_r {A} (cmp : A -> A -> comparison) :
  lawful cmp → ∀ x y z, cmp y z = Eq → cmp x y = cmp x z.
Proof.
  intros L x y z H.
  rewrite (law_sym cmp L y x), (law_sym cmp L z x). f_equal.
  apply (law_eq_l cmp L). exact H.
Qed.

Lemma lawful_N : lawful N.compare.
Proof.
  split.
  - apply N.compare_refl.
  - intros x y. apply N.compare_antisym.
  - intros c x y z H1 H2. destruct c.
    + apply N.compare_eq_iff in H1, H2. apply N.compare_eq_iff. congruence.
    + rewrite N.compare_lt_iff in *. lia.
    + rewrite N.compare_gt_iff in *. lia.
  - intros x y z H. apply N.compare_eq_iff in H. congruence.
Qed.

Lemma lawful_map {A B} (f : A → B) (cmp : B -> B -> comparison) :
  lawful cmp → lawful (fun x y => cmp (f x) (f y)).
Proof.
  intros L. split.
  - intros x. apply (law_refl cmp L).
  - intros x y. apply (law_sym cmp L).
  - intros c x y z. apply (law_trans cmp L).
  - intros x y z. apply (law_eq_l cmp L).
Qed.

Lemma lawful_pair {A B} (cmpA : A -> A -> comparison)
    (cmpB : B -> B -> comparison) :
  lawful cmpA → lawful cmpB → lawful (cmp_pair cmpA cmpB).
Proof.
  intros LA LB. split.
  - intros [a b]. unfold cmp_pair. simpl.
    rewrite (law_refl cmpA LA). apply (law_refl cmpB LB).
  - intros [a b] [a' b']. unfold cmp_pair. simpl.
    rewrite (law_sym cmpA LA a a'), (law_sym cmpB LB b b').
    destruct (cmpA a a'); reflexivity.
  - intros c [a1 b1] [a2 b2] [a3 b3]. unfold cmp_pair. simpl.
    destruct (cmpA a1 a2) eqn:H12; destruct (cmpA a2 a3) eqn:H23;
      intros H1 H2; subst; try discriminate;
      try (rewrite (law_trans cmpA LA _ _ _ _ H12 H23);
           try reflexivity; eapply (law_trans cmpB LB); eauto; fail);
      try (rewrite (law_eq_l cmpA LA _ _ _ H12), H23; congruence);
      try (rewrite <- (law_eq_r cmpA LA _ _ _ H23), H12; congruence).
  - intros [a1 b1] [a2 b2] [a3 b3]. unfold cmp_pair. simpl.
    destruct (cmpA a1 a2) eqn:H12; try discriminate. intros H.
    rewrite (law_eq_l cmpA LA _ _ _ H12), (law_eq_l cmpB LB _ _ _ H).
    reflexivity.
Qed.
Lemma lawful_ext {A} (cmp : A -> A -> comparison) :
  lawful cmp → lawful (cmp_ext cmp).
Proof.
  intros L. split.
  - intros [|a|]; simpl; [reflexivity | apply (law_refl cmp L) | reflexivity].
  - intros [|a|] [|b|]; simpl; try reflexivity. apply (law_sym cmp L).
  - intros c [|x|] [|y|] [|z|]; simpl; intros H1 H2; try congruence.
    eapply (law_trans cmp L); eauto.
  - intros [|x|] [|y|] [|z|]; simpl; intros H; try discriminate;
      try reflexivity.
    apply (law_eq_l cmp L), H.
Qed.

Lemma lawful_tuple {A} (cmp : A -> A -> comparison) :
  lawful cmp → lawful (cmp_tuple cmp).
Proof.
  intros L. split.
  - intros x. induction x as [|a x IH]; simpl; [reflexivity|].
    rewrite (law_refl cmp L). exact IH.
  - intros x. induction x as [|a x IH]; intros [|b y]; simpl; try reflexivity.
    rewrite (law_sym cmp L a b), IH. destruct (cmp a b); reflexivity.
  - intros c x. induction x as [|a x IH]; intros [|b y] [|d z]; simpl;
      intros H1 H2; try congruence.
    destruct (cmp a b) eqn:H12; destruct (cmp b d) eqn:H23;
      try congruence;
      try (rewrite (law_trans cmp L _ _ _ _ H12 H23);
           first [congruence | eapply IH; eauto]; fail);
      try (rewrite (law_eq_l cmp L _ _ _ H12), H23; congruence);
      try (rewrite <- (law_eq_r cmp L _ _ _ H23), H12; congruence).
  - intros x. induction x as [|a x IH]; intros [|b y] [|d z]; simpl;
      intros H; try discriminate; try reflexivity.
    destruct (cmp a b) eqn:H12; try discriminate.
    rewrite (law_eq_l cmp L _ _ _ H12), (IH _ z H). reflexivity.
Qed.

Lemma lawful_cmp_str : lawful cmp_str.
Proof.
  unfold cmp_str. apply lawful_tuple.
  apply (lawful_map code N.compare), lawful_N.
Qed.

Lemma lawful_cmp_pre : lawful cmp_pre.
Proof.
  unfold cmp_pre. apply lawful_pair; [|apply lawful_N].
  apply (lawful_map (fun a => str_chars (letter_str a)) cmp_str), lawful_cmp_str.
Qed.

Lemma cmp_key_tuple (a b : CmpKey) :
  cmp_key a b
  = cmp_pair N.compare
      (cmp_pair (cmp_tuple N.compare)
         (cmp_pair (cmp_ext cmp_pre)
            (cmp_pair (cmp_ext N.compare)
               (cmp_pair (cmp_ext N.compare)
                  (cmp_ext (cmp_tuple (cmp_pair (cmp_ext N.compare) cmp_str)))))))
      (key_tuple a) (key_tuple b).
Proof. reflexivity. Qed.

(** The comparison of keys is a total order up to equal keys. *)
Lemma lawful_cmp_key : lawful cmp_key.
Proof.
  assert (L : lawful (fun a b =>
      cmp_pair N.compare
        (cmp_pair (cmp_tuple N.compare)
           (cmp_pair (cmp_ext cmp_pre)
              (cmp_pair (cmp_ext N.compare)
                 (cmp_pair (cmp_ext N.compare)
                    (cmp_ext (cmp_tuple (cmp_pair (cmp_ext N.compare) cmp_str)))))))
        (key_tuple a) (key_tuple b))).
  { apply (lawful_map key_tuple).
    repeat first [apply lawful_N | apply lawful_cmp_pre | apply lawful_cmp_str
                 | apply lawful_pair | apply lawful_ext | apply lawful_tuple]. }
  destruct L as [R S T E]. split.
  - intros x. rewrite cmp_key_tuple. apply R.
  - intros x y. rewrite !cmp_key_tuple. apply S.
  - intros c x y z. rewrite !cmp_key_tuple. apply T.
  - intros x y z. rewrite !cmp_key_tuple. apply E.
Qed.

Lemma gt_irrefl v : gt v v = false.
Proof. unfold gt. rewrite (law_refl _ lawful_cmp_key). reflexivity. Qed.

Lemma gt_asym a b : gt a b = true → gt b a = false.
Proof.
  unfold gt. rewrite (law_sym _ lawful_cmp_key (_cmpkey a) (_cmpkey b)).
  destruct (cmp_key (_cmpkey a) (_cmpkey b)); simpl; congruence.
Qed.

Lemma gt_trans a b c : gt a b = true → gt b c = true → gt a c = true.
Proof.
  unfold gt.
  destruct (cmp_key (_cmpkey a) (_cmpkey b)) eqn:H1; try discriminate.
  destruct (cmp_key (_cmpkey b) (_cmpkey c)) eqn:H2; try discriminate.
  rewrite (law_trans _ lawful_cmp_key _ _ _ _ H1 H2). reflexivity.
Qed.

(** [a > b] and [c] not above [b] give [a > c]. *)
Lemma gt_ge_trans a b c : gt a b = true → gt c b = false → gt a c = true.
Proof.
  unfold gt. pose proof lawful_cmp_key as L.
  destruct (cmp_key (_cmpkey a) (_cmpkey b)) eqn:H1; try discriminate.
  destruct (cmp_key (_cmpkey c) (_cmpkey b)) eqn:H2; try discriminate; intros _ _.
  - rewrite (law_eq_r _ L _ _ _ H2), H1. reflexivity.
  - assert (H3 : cmp_key (_cmpkey b) (_cmpkey c) = Gt)
      by (rewrite (law_sym _ L), H2; reflexivity).
    rewrite (law_trans _ L _ _ _ _ H1 H3). reflexivity.
Qed.

(** [a] not below [b] and [b > c] give [a > c]. *)
Lemma ge_gt_trans a b c : gt b a = false → gt b c = true → gt a c = true.
Proof.
  unfold gt. pose proof lawful_cmp_key as L.
  destruct (cmp_key (_cmpkey b) (_cmpkey c)) eqn:H1; try discriminate.
  destruct (cmp_key (_cmpkey b) (_cmpkey a)) eqn:H2; try discriminate; intros _ _.
  - rewrite <- (law_eq_l _ L _ _ _ H2), H1. reflexivity.
  - assert (H3 : cmp_key (_cmpkey a) (_cmpkey b) = Gt)
      by (rewrite (law_sym _ L), H2; reflexivity).
    rewrite (law_trans _ L _ _ _ _ H3 H1). reflexivity.
Qed.

(** Neither above the next gives neither above the last. *)
Lemma ge_trans a b c : gt b a = false → gt c b = false → gt c a = false.
Proof.
  intros H1 H2. destruct (gt c a) eqn:H3; [|reflexivity].
  rewrite (ge_gt_trans b c a H2 H3) in H1. discriminate.
Qed.
End Lawful.

(** ** What the service keeps true of the world *)

Section WorldInvariant.

Lemma str_chars_inj (a b : string) : str_chars a = str_chars b → a = b.
Proof.
  intros H. apply (f_equal string_of_list_ascii) in H.
  unfold str_chars in H. rewrite !string_of_list_ascii_of_string in H. exact H.
Qed.

Lemma append_inj_r (a b suffix : string) :
  a +:+ suffix = b +:+ suffix → a = b.
Proof.
  intros H. apply str_chars_inj.
  apply (f_equal str_chars) in H. rewrite !str_chars_app in H.
  exact (app_inv_tail _ _ _ H).
Qed.

(** Two versions never share an artifact. *)
Lemma artifact_path_inj (v v' : string) :
  artifact_path v = artifact_path v' → v = v'.
Proof.
  unfold artifact_path, artifact_name, path_div, UPDATES_DIR. simpl.
  intros [= H]. change (v +:+ ".exe" = v' +:+ ".exe") in H.
  exact (append_inj_r _ _ _ H).
Qed.

Lemma artifact_path_not_empty (v : string) :
  String.eqb (artifact_path v) "" = false.
Proof. reflexivity. Qed.

Lemma elem_of_dict_set_NoDup {V} (d : dict V) k v k' v' :
  NoDup (keys d) → (k', v') ∈ dict_set d k v →
  (k', v') = (k, v) ∨ ((k', v') ∈ d ∧ k' ≠ k).
Proof.
  induction d as [|[k1 v1] d IH]; simpl; intros Hnd Hin.
  - apply list_elem_of_singleton in Hin. left. exact Hin.
  - apply NoDup_cons in Hnd as [Hk1 Hnd].
    destruct (String.eqb_spec k1 k) as [->|Hne].
    + apply elem_of_cons in Hin as [Hin|Hin]; [left; exact Hin|].
      right. split; [right; exact Hin|].
      intros ->. apply Hk1. apply (list_elem_of_fmap_2 fst) in Hin. exact Hin.
    + apply elem_of_cons in Hin as [Hin|Hin].
      * right. injection Hin as -> ->. split; [left | exact Hne].
      * destruct (IH Hnd Hin) as [E|[E E']];
          [left; exact E | right; split; [right; exact E | exact E']].
Qed.

Lemma dict_get_elem_NoDup {V} (d : dict V) k v :
  NoDup (keys d) → (k, v) ∈ d → dict_get d k = Some v.
Proof.
  induction d as [|[k1 v1] d IH]; simpl; intros Hnd Hin; [inversion Hin|].
  apply NoDup_cons in Hnd as [Hk1 Hnd].
  destruct (String.eqb_spec k1 k) as [->|Hne].
  - apply elem_of_cons in Hin as [[= ->]|Hin]; [reflexivity|].
    exfalso. apply Hk1. apply (list_elem_of_fmap_2 fst) in Hin. exact Hin.
  - apply elem_of_cons in Hin as [[= -> ->]|Hin]; [congruence|].
    apply IH; assumption.
Qed.

Lemma dict_get_elem {V} (d : dict V) k v : dict_get d k = Some v → (k, v) ∈ d.
Proof.
  induction d as [|[k1 v1] d IH]; simpl; [discriminate|].
  destruct (String.eqb_spec k1 k) as [->|Hne].
  - intros [= ->]. left.
  - intros H. right. apply IH, H.
Qed.

Lemma elem_keys_dict_get {V} (d : dict V) k :
  k ∈ keys d → ∃ v, dict_get d k = Some v.
Proof.
  intros Hin. destruct (dict_get d k) as [v|] eqn:Hget; [eauto|].
  apply dict_get_None_keys in Hget. contradiction.
Qed.

Lemma dict_set_twice {V} (d : dict V) k v :
  dict_set (dict_set d k v) k v = dict_set d k v.
Proof.
  induction d as [|[k1 v1] d IH]; simpl.
  - rewrite String.eqb_refl. reflexivity.
  - destruct (String.eqb_spec k1 k) as [->|Hne]; simpl.
    + rewrite String.eqb_refl. reflexivity.
    + destruct (String.eqb_spec k1 k); [congruence|]. rewrite IH. reflexivity.
Qed.

Lemma keys_dict_set_elem {V} (d : dict V) k v k' :
  k' ∈ keys (dict_set d k v) ↔ k' = k ∨ k' ∈ keys d.
Proof.
  destruct (decide (k ∈ keys d)) as [Hin|Hnin].
  - rewrite keys_dict_set_in by exact Hin. split; [tauto|].
    intros [->|H]; assumption.
  - rewrite keys_dict_set_notin by exact Hnin.
    rewrite elem_of_app, list_elem_of_singleton. tauto.
Qed.

Lemma world_inv_initial : world_inv initial.
Proof.
  split; [apply NoDup_nil_2|]. intros k info Hin. inversion Hin.
Qed.

Lemma world_inv_upload w request :
  world_inv w → world_inv (fst (upload_update w request)).
Proof.
  intros [Hnd Hinv].
  destruct (upload_update_cases w request) as [(version & file & Hacc)|[-> _]];
    [| split; assumption].
  rewrite (upload_update_accepted w _ _ _ Hacc).
  unfold world_inv. cbn [fst load_versions versions_file files].
  split; [apply NoDup_keys_dict_set, Hnd|].
  intros k info Hin.
  apply elem_of_dict_set_NoDup in Hin as [[= -> ->]|[Hin Hne]]; [| |exact Hnd].
  - exists (or_default (changelog_field request) "Nova atualização"),
      (content file), (st_mtime request).
    split; [reflexivity | apply lookup_insert_eq].
  - destruct (Hinv k info Hin) as (changelog & data & mtime & -> & Hfile).
    exists changelog, data, mtime. split; [reflexivity|].
    rewrite lookup_insert_ne; [exact Hfile|].
    intros E. apply artifact_path_inj in E. congruence.
Qed.

Lemma world_inv_handle w r : world_inv w → world_inv (fst (handle w r)).
Proof. destruct r; simpl; auto using world_inv_upload. Qed.

Lemma reachable_world_inv w : reachable w → world_inv w.
Proof.
  induction 1 as [|w r _ IH]; [apply world_inv_initial | apply world_inv_handle, IH].
Qed.

Lemma world_inv_store_inv w : world_inv w → store_inv (load_versions w).
Proof.
  intros [_ Hinv] k info Hin.
  destruct (Hinv k info Hin) as (changelog & data & mtime & -> & _). reflexivity.
Qed.

(** In a world that satisfies the invariant, the download of a stored
    version serves the artifact. *)
Lemma world_inv_download w k info :
  world_inv w → (k, info) ∈ load_versions w →
  ∃ data,
    files w !! artifact_path k = Some data
    ∧ Info.file_size info = Some (getsize data)
    ∧ download_update w k
      = (Attachment data true "MoneyBot.exe" "application/octet-stream", 200%Z).
Proof.
  intros [Hnd Hinv] Hin.
  destruct (Hinv k info Hin) as (changelog & data & mtime & -> & Hfile).
  exists data. split; [exact Hfile|]. split; [reflexivity|].
  unfold download_update.
  rewrite (dict_get_elem_NoDup _ _ _ Hnd Hin). simpl.
  unfold os_path_exists, send_file.
  rewrite artifact_path_not_empty, Hfile. reflexivity.
Qed.
End WorldInvariant.

(** ** The scan over keys that parse *)

Section ScanOrder.

Lemma version_gt_parsed a b va vb :
  PkgVersion.parse a = Ok va → PkgVersion.parse b = Ok vb →
  version_gt a b = Ok (PkgVersion.gt va vb).
Proof. unfold version_gt. intros -> ->. reflexivity. Qed.

Lemma version_gt_Ok_inv a b r :
  version_gt a b = Ok r →
  ∃ va vb, PkgVersion.parse a = Ok va ∧ PkgVersion.parse b = Ok vb
           ∧ r = PkgVersion.gt va vb.
Proof.
  unfold version_gt.
  destruct (PkgVersion.parse a) as [va|]; simpl; [|discriminate].
  destruct (PkgVersion.parse b) as [vb|]; simpl; [|discriminate].
  intros [= <-]. eauto.
Qed.

Lemma version_gt_refl a v : PkgVersion.parse a = Ok v → version_gt a a = Ok false.
Proof.
  intros H. rewrite (version_gt_parsed _ _ _ _ H H), gt_irrefl. reflexivity.
Qed.

Lemma version_gt_asym a b : version_gt a b = Ok true → version_gt b a = Ok false.
Proof.
  intros H. apply version_gt_Ok_inv in H as (va & vb & Ha & Hb & Hgt).
  rewrite (version_gt_parsed _ _ _ _ Hb Ha), gt_asym; [reflexivity | congruence].
Qed.

Lemma version_gt_trans a b c :
  version_gt a b = Ok true → version_gt b c = Ok true → version_gt a c = Ok true.
Proof.
  intros H1 H2.
  apply version_gt_Ok_inv in H1 as (va & vb & Ha & Hb & Hgt1).
  apply version_gt_Ok_inv in H2 as (vb' & vc & Hb' & Hc & Hgt2).
  assert (vb' = vb) as -> by congruence.
  rewrite (version_gt_parsed _ _ _ _ Ha Hc). f_equal.
  eapply gt_trans; eauto.
Qed.

Lemma version_gt_ge_trans a b c :
  version_gt a b = Ok true → version_gt c b = Ok false → version_gt a c = Ok true.
Proof.
  intros H1 H2.
  apply version_gt_Ok_inv in H1 as (va & vb & Ha & Hb & Hgt1).
  apply version_gt_Ok_inv in H2 as (vc & vb' & Hc & Hb' & Hgt2).
  assert (vb' = vb) as -> by congruence.
  rewrite (version_gt_parsed _ _ _ _ Ha Hc). f_equal.
  eapply gt_ge_trans; eauto.
Qed.

Lemma version_ge_gt_trans a b c :
  version_gt b a = Ok false → version_gt b c = Ok true → version_gt a c = Ok true.
Proof.
  intros H1 H2.
  apply version_gt_Ok_inv in H1 as (vb & va & Hb & Ha & Hgt1).
  apply version_gt_Ok_inv in H2 as (vb' & vc & Hb' & Hc & Hgt2).
  assert (vb' = vb) as -> by congruence.
  rewrite (version_gt_parsed _ _ _ _ Ha Hc). f_equal.
  eapply ge_gt_trans; eauto.
Qed.

Lemma version_ge_trans a b c :
  version_gt b a = Ok false → version_gt c b = Ok false → version_gt c a = Ok false.
Proof.
  intros H1 H2.
  apply version_gt_Ok_inv in H1 as (vb & va & Hb & Ha & Hgt1).
  apply version_gt_Ok_inv in H2 as (vc & vb' & Hc & Hb' & Hgt2).
  assert (vb' = vb) as -> by congruence.
  rewrite (version_gt_parsed _ _ _ _ Hc Ha). f_equal.
  eapply ge_trans; eauto.
Qed.

Lemma parseable_keys_cons k info versions :
  parseable_keys ((k, info) :: versions) →
  (∃ v, PkgVersion.parse k = Ok v) ∧ parseable_keys versions.
Proof.
  intros H. split.
  - apply H. simpl. left.
  - intros k' Hk'. apply H. simpl. right. exact Hk'.
Qed.

(** From a candidate that parses, the loop over keys that parse ends on
    the first of the greatest keys, the candidate's included. *)
Lemma latest_loop_first_max (items : Store) :
  parseable_keys items →
  ∀ info0 k0 v0, PkgVersion.parse k0 = Ok v0 →
  ∃ k info,
    latest_loop items (Some info0) (Some k0) = Ok (Some info)
    ∧ first_max ((k0, info0) :: items) k info.
Proof.
  induction items as [|[k1 info1] items IH]; intros Hkeys info0 k0 v0 Hk0.
  - exists k0, info0. split; [reflexivity|].
    exists [], []. split; [reflexivity|].
    split; intros k' Hk'; inversion Hk'.
  - apply parseable_keys_cons in Hkeys as [[v1 Hk1] Hkeys].
    simpl. rewrite (version_gt_parsed _ _ _ _ Hk1 Hk0). simpl.
    destruct (PkgVersion.gt v1 v0) eqn:Hnewer.
    + destruct (IH Hkeys info1 k1 v1 Hk1)
        as (k & info & Hloop & before & after & Hsplit & Hb & Ha).
      exists k, info. split; [exact Hloop|].
      exists ((k0, info0) :: before), after.
      split; [simpl; rewrite Hsplit; reflexivity|]. split; [|exact Ha].
      assert (H10 : version_gt k1 k0 = Ok true)
        by (rewrite (version_gt_parsed _ _ _ _ Hk1 Hk0), Hnewer; reflexivity).
      intros k' Hk'. simpl in Hk'. apply elem_of_cons in Hk' as [->|Hk'];
        [|apply Hb, Hk'].
      destruct before as [|[kb ib] before].
      * injection Hsplit as -> -> ->. exact H10.
      * injection Hsplit as -> -> ->.
        eapply version_gt_trans; [apply Hb; simpl; left | exact H10].
    + destruct (IH Hkeys info0 k0 v0 Hk0)
        as (k & info & Hloop & before & after & Hsplit & Hb & Ha).
      exists k, info. split; [exact Hloop|].
      assert (H10 : version_gt k1 k0 = Ok false)
        by (rewrite (version_gt_parsed _ _ _ _ Hk1 Hk0), Hnewer; reflexivity).
      destruct before as [|[kb ib] before].
      * injection Hsplit as -> -> ->.
        exists [], ((k1, info1) :: after). split; [reflexivity|].
        split; [intros k' Hk'; inversion Hk'|].
        intros k' Hk'. simpl in Hk'. apply elem_of_cons in Hk' as [->|Hk'];
          [exact H10 | apply Ha, Hk'].
      * injection Hsplit as -> -> ->.
        exists ((kb, ib) :: (k1, info1) :: before), after.
        split; [reflexivity|]. split; [|exact Ha].
        intros k' Hk'. simpl in Hk'.
        apply elem_of_cons in Hk' as [->|Hk']; [apply Hb; simpl; left|].
        apply elem_of_cons in Hk' as [->|Hk']; [|apply Hb; simpl; right; exact Hk'].
        eapply version_gt_ge_trans; [apply Hb; simpl; left | exact H10].
Qed.

Lemma get_latest_version_first_max (w : World) :
  load_versions w ≠ [] → parseable_keys (load_versions w) →
  ∃ k info,
    get_latest_version w = Ok (Some info)
    ∧ first_max (load_versions w) k info.
Proof.
  unfold get_latest_version. intros Hne Hkeys.
  destruct (load_versions w) as [|[k1 info1] items]; [congruence|].
  apply parseable_keys_cons in Hkeys as [[v1 Hk1] Hkeys].
  exact (latest_loop_first_max items Hkeys info1 k1 v1 Hk1).
Qed.

(** No key is greater than the first of the greatest. *)
Lemma first_max_greatest items k info :
  parseable_keys items → first_max items k info →
  (k, info) ∈ items ∧ ∀ k', k' ∈ keys items → version_gt k' k = Ok false.
Proof.
  intros Hkeys (before & after & -> & Hb & Ha). split.
  - apply elem_of_app. right. left.
  - intros k' Hk'. unfold keys in Hk'. rewrite map_app in Hk'.
    apply elem_of_app in Hk' as [Hk'|Hk'].
    + apply version_gt_asym, Hb, Hk'.
    + simpl in Hk'. apply elem_of_cons in Hk' as [->|Hk']; [|apply Ha, Hk'].
      destruct (Hkeys k) as [v Hv].
      { unfold keys. rewrite map_app. apply elem_of_app. right. left. }
      exact (version_gt_refl k v Hv).
Qed.

(** A key that does not parse can be exhibited when not all keys
    parse. *)
Lemma parseable_keys_dec (versions : Store) :
  parseable_keys versions ∨ ∃ k, k ∈ keys versions ∧ unparseable k.
Proof.
  induction versions as [|[k info] versions IH].
  - left. intros k Hk. inversion Hk.
  - destruct (parse_cases k) as [Hk|Hk];
      [|right; exists k; split; [simpl; left | exact Hk]].
    destruct IH as [IH|(k' & Hin & Hbad)].
    + left. intros k' Hk'. simpl in Hk'.
      apply elem_of_cons in Hk' as [->|Hk']; [exact Hk | apply IH, Hk'].
    + right. exists k'. split; [simpl; right; exact Hin | exact Hbad].
Qed.
End ScanOrder.

(** ** Sample worlds are worlds of the service *)

Lemma reachable_world_1_0_0 : reachable world_1_0_0.
Proof.
  exact (reachable_step initial
           (PostUpload (upload_of "1.0.0" (Some "Primeira versão")))
           reachable_initial).
Qed.

Lemma reachable_world_three : reachable world_three.
Proof.
  exact (reachable_step _ (PostUpload (upload_of "1.0.2" None))
           (reachable_step _ (PostUpload (upload_of "1.0.10" None))
              (reachable_step _ (PostUpload (upload_of "1.0.9" None))
                 reachable_initial))).
Qed.

Lemma parseable_keys_world_three : parseable_keys (load_versions world_three).
Proof.
  intros k Hk. change (k ∈ ["1.0.9"; "1.0.10"; "1.0.2"]) in Hk.
  repeat (apply elem_of_cons in Hk as [->|Hk]; [eexists; reflexivity|]).
  inversion Hk.
Qed.

(** ** Upload, then download *)

(** X1. After an upload answered 200, the download of the uploaded
    version serves exactly the uploaded bytes, as the attachment
    MoneyBot.exe. *)
Theorem upload_then_download (w : World) (request : UploadRequest)
    (version : string) (file : FileStorage) :
  status (snd (upload_update w request)) = 200%Z →
  version_field request = Some version →
  file_part request = Some file →
  download_update (fst (upload_update w request)) version
  = (Attachment (content file) true "MoneyBot.exe" "application/octet-stream",
     200%Z).
Proof.
  intros H200 Hver Hfile.
  destruct (upload_update_ok w request H200) as (version' & file' & Hacc).
  assert (version' = version ∧ file' = file) as [-> ->].
  { destruct Hacc as (_ & Hver' & _ & Hfile' & _). split; congruence. }
  rewrite (upload_update_accepted w _ _ _ Hacc).
  unfold download_update. cbn [fst load_versions versions_file].
  rewrite dict_get_set_eq. simpl.
  unfold os_path_exists, send_file. cbn [files].
  rewrite artifact_path_not_empty, lookup_insert_eq. reflexivity.
Qed.

Lemma upload_then_download_witness :
  download_update
    (fst (upload_update world_three (upload_of "2.0.0" (Some "Nova série"))))
    "2.0.0"
  = (Attachment (content sample_file) true "MoneyBot.exe"
       "application/octet-stream", 200%Z).
Proof.
  exact (upload_then_download world_three
           (upload_of "2.0.0" (Some "Nova série")) "2.0.0" sample_file
           eq_refl eq_refl eq_refl).
Defined.

(** X2. In every world the service can reach, the keys of the store are
    distinct, every record is complete (its version is its key, its path
    is the artifact path of its key), and the download of any stored
    version is answered 200 with the artifact, whose length is the
    recorded file size: the not-found answers are for versions that were
    never uploaded. *)
Theorem published_version_downloadable (w : World) :
  reachable w →
  NoDup (keys (load_versions w))
  ∧ ∀ k, k ∈ keys (load_versions w) →
      ∃ info data changelog mtime,
        dict_get (load_versions w) k = Some info
        ∧ info = Info.mk (Some k) (Some changelog) (Some (artifact_path k))
                         (Some (Z.of_nat (length data))) (Some mtime)
        ∧ files w !! artifact_path k = Some data
        ∧ download_update w k
          = (Attachment data true "MoneyBot.exe" "application/octet-stream",
             200%Z).
Proof.
  intros Hreach. pose proof (reachable_world_inv w Hreach) as Hinv.
  split; [apply Hinv|]. intros k Hk.
  destruct (elem_keys_dict_get _ _ Hk) as [info Hget].
  pose proof (dict_get_elem _ _ _ Hget) as Hin.
  destruct (proj2 Hinv k info Hin) as (changelog & data & mtime & Hinfo & Hfile).
  destruct (world_inv_download w k info Hinv Hin) as (data' & Hfile' & _ & Hdl).
  assert (data' = data) as -> by congruence.
  exists info, data, changelog, mtime. repeat split; assumption.
Qed.

Lemma published_version_downloadable_witness :
  NoDup (keys (load_versions world_three))
  ∧ ∀ k, k ∈ keys (load_versions world_three) →
      ∃ info data changelog mtime,
        dict_get (load_versions world_three) k = Some info
        ∧ info = Info.mk (Some k) (Some changelog) (Some (artifact_path k))
                         (Some (Z.of_nat (length data))) (Some mtime)
        ∧ files world_three !! artifact_path k = Some data
        ∧ download_update world_three k
          = (Attachment data true "MoneyBot.exe" "application/octet-stream",
             200%Z).
Proof.
  exact (published_version_downloadable world_three reachable_world_three).
Defined.

(** X3. In a world the service can reach, an upload answered 200 touches
    only its own version: the record and the download of every other
    version are what they were. *)
Theorem upload_keeps_other_versions (w : World) (request : UploadRequest)
    (version k : string) :
  reachable w →
  status (snd (upload_update w request)) = 200%Z →
  version_field request = Some version →
  k ≠ version →
  dict_get (load_versions (fst (upload_update w request))) k
  = dict_get (load_versions w) k
  ∧ download_update (fst (upload_update w request)) k = download_update w k.
Proof.
  intros Hreach H200 Hver Hne.
  pose proof (reachable_world_inv w Hreach) as [Hnd Hinv].
  destruct (upload_update_ok w request H200) as (version' & file & Hacc).
  assert (version' = version) as ->.
  { destruct Hacc as (_ & Hver' & _). congruence. }
  rewrite (upload_update_accepted w _ _ _ Hacc).
  cbn [fst load_versions versions_file].
  assert (Hget : dict_get (dict_set (load_versions w) version
                             (uploaded_info version request file)) k
                 = dict_get (load_versions w) k)
    by (apply dict_get_set_ne; congruence).
  split; [exact Hget|].
  unfold download_update. cbn [load_versions versions_file]. rewrite Hget.
  fold (load_versions w).
  destruct (dict_get (load_versions w) k) as [info|] eqn:Hk; [|reflexivity].
  apply dict_get_elem in Hk.
  destruct (Hinv k info Hk) as (changelog & data & mtime & -> & Hfile).
  simpl. unfold os_path_exists, send_file. cbn [files].
  rewrite lookup_insert_ne; [reflexivity|].
  intros E. apply artifact_path_inj in E. congruence.
Qed.

Lemma upload_keeps_other_versions_witness :
  dict_get (load_versions
              (fst (upload_update world_three
                      (upload_of "1.0.10" (Some "Correções"))))) "1.0.9"
  = dict_get (load_versions world_three) "1.0.9"
  ∧ download_update
      (fst (upload_update world_three (upload_of "1.0.10" (Some "Correções"))))
      "1.0.9"
    = download_update world_three "1.0.9".
Proof.
  apply (upload_keeps_other_versions world_three
           (upload_of "1.0.10" (Some "Correções")) "1.0.10" "1.0.9"
           reachable_world_three eq_refl eq_refl).
  discriminate.
Defined.

(** X4. An upload repeated with the same request changes nothing more:
    the world and the answer after the second upload are those after the
    first. *)
Theorem upload_idempotent (w : World) (request : UploadRequest) :
  upload_update (fst (upload_update w request)) request
  = upload_update w request.
Proof.
  destruct (upload_update_cases w request) as [(version & file & Hacc)|[Hsame _]].
  - rewrite (upload_update_accepted w _ _ _ Hacc). cbn [fst].
    rewrite (upload_update_accepted _ _ _ _ Hacc).
    cbn [load_versions versions_file files].
    rewrite dict_set_twice, insert_insert_eq. reflexivity.
  - rewrite Hsame. reflexivity.
Qed.

(** ** The latest version, for every version that parses *)

(** X5. On a store that is not empty and whose keys all parse, whatever
    their PEP 440 form, the latest-version scan returns the record of
    the first of the greatest keys in insertion order: its key is
    greater than every key stored before it, and no key of the store is
    greater than it. *)
Theorem latest_scan_first_max (w : World) :
  load_versions w ≠ [] → parseable_keys (load_versions w) →
  ∃ k info,
    get_latest_version w = Ok (Some info)
    ∧ first_max (load_versions w) k info
    ∧ (k, info) ∈ load_versions w
    ∧ ∀ k', k' ∈ keys (load_versions w) → version_gt k' k = Ok false.
Proof.
  intros Hne Hkeys.
  destruct (get_latest_version_first_max w Hne Hkeys) as (k & info & Hscan & Hmax).
  exists k, info. split; [exact Hscan|]. split; [exact Hmax|].
  apply first_max_greatest; assumption.
Qed.

Lemma latest_scan_first_max_witness :
  ∃ k info,
    get_latest_version world_three = Ok (Some info)
    ∧ first_max (load_versions world_three) k info
    ∧ (k, info) ∈ load_versions world_three
    ∧ ∀ k', k' ∈ keys (load_versions world_three) → version_gt k' k = Ok false.
Proof.
  apply (latest_scan_first_max world_three);
    [discriminate | exact parseable_keys_world_three].
Defined.

(** X6. The latest-version scan raises exactly when the store has two or
    more keys and one of them does not parse; with a single key nothing
    is parsed. *)
Theorem get_latest_version_raises_iff (w : World) :
  (∃ e, get_latest_version w = Raise e)
  ↔ (2 <= length (load_versions w))%nat
    ∧ ∃ k, k ∈ keys (load_versions w) ∧ unparseable k.
Proof.
  split.
  - intros [e Hraise].
    destruct (parseable_keys_dec (load_versions w)) as [Hkeys|Hbad].
    + exfalso. unfold get_latest_version in *.
      destruct (load_versions w) as [|[k1 info1] items] eqn:Hload;
        [discriminate|].
      apply parseable_keys_cons in Hkeys as [[v1 Hk1] Hkeys].
      destruct (latest_loop_first_max items Hkeys info1 k1 v1 Hk1)
        as (k & info & Hscan & _).
      simpl in Hraise. simpl in Hscan. congruence.
    + split; [|exact Hbad]. unfold get_latest_version in Hraise.
      destruct (load_versions w) as [|kv1 [|kv2 items]];
        [discriminate | destruct kv1; discriminate | simpl; lia].
  - intros [Hlen Hbad]. apply get_latest_version_unparseable; assumption.
Qed.

Lemma get_latest_version_raises_iff_witness :
  (get_latest_version world_three = Raise (InvalidVersion "x") → False)
  ∧ ∃ e, get_latest_version
           (fst (upload_update world_1_0_0 (upload_of "banana" None)))
         = Raise e.
Proof.
  split; [discriminate|].
  apply (proj2 (get_latest_version_raises_iff
                  (fst (upload_update world_1_0_0 (upload_of "banana" None))))).
  split; [change (2 <= 2)%nat; lia|].
  exists "banana". split; [|reflexivity].
  change ("banana" ∈ ["1.0.0"; "banana"]).
  apply list_elem_of_further, list_elem_of_here.
Defined.

(** ** GET /update/check, for every version that parses *)

(** X7. In a world the service can reach, a client whose current version
    no stored version is greater than gets the no-update answer: status
    200, its own current version, an empty changelog and URL, size 0.
    This covers the client that is at the latest version and the one
    that is ahead of it. *)
Theorem check_update_up_to_date (w : World) (request : CheckRequest) :
  let current_version := or_default (current_version_arg request) "0.0.0" in
  reachable w →
  (∀ k, k ∈ keys (load_versions w) → version_gt k current_version = Ok false) →
  check_update w request = (UpdateInfo current_version "" "" 0, 200%Z).
Proof.
  intros cv Hreach Hall.
  pose proof (world_inv_store_inv w (reachable_world_inv w Hreach)) as Hinv.
  assert (Hcase : load_versions w = [] ∨ load_versions w ≠ [])
    by (destruct (load_versions w); [left; reflexivity | right; discriminate]).
  destruct Hcase as [Hload|Hne].
  - unfold check_update, get_latest_version. rewrite Hload. reflexivity.
  - assert (Hkeys : parseable_keys (load_versions w)).
    { intros k Hk.
      destruct (version_gt_Ok_inv _ _ _ (Hall k Hk)) as (v & _ & Hv & _). eauto. }
    destruct (get_latest_version_first_max w Hne Hkeys)
      as (k & info & Hscan & Hmax).
    destruct (first_max_greatest _ _ _ Hkeys Hmax) as [Hin _].
    unfold check_update. fold cv. rewrite Hscan. simpl bind.
    rewrite (store_inv_not_empty _ _ _ Hinv Hin), (Hinv k info Hin).
    simpl or_default.
    rewrite (Hall k (list_elem_of_fmap_2 fst _ _ Hin)). reflexivity.
Qed.

Lemma check_update_up_to_date_witness :
  check_update world_three (check_of (Some "1.0.10"))
  = (UpdateInfo "1.0.10" "" "" 0, 200%Z)
  ∧ check_update world_three (check_of (Some "2.0.dev1"))
    = (UpdateInfo "2.0.dev1" "" "" 0, 200%Z).
Proof.
  split.
  - apply (check_update_up_to_date world_three (check_of (Some "1.0.10"))
             reachable_world_three).
    intros k Hk. change (k ∈ ["1.0.9"; "1.0.10"; "1.0.2"]) in Hk.
    repeat (apply elem_of_cons in Hk as [->|Hk]; [reflexivity|]). inversion Hk.
  - apply (check_update_up_to_date world_three (check_of (Some "2.0.dev1"))
             reachable_world_three).
    intros k Hk. change (k ∈ ["1.0.9"; "1.0.10"; "1.0.2"]) in Hk.
    repeat (apply elem_of_cons in Hk as [->|Hk]; [reflexivity|]). inversion Hk.
Defined.

(** X8. In a world the service can reach whose keys all parse, a client
    that some stored version is greater than is offered the first of the
    greatest stored versions, never an older or equal one: the answer
    carries that version, its stored changelog, the URL of its download
    route and its file size, and the download of that version serves
    the artifact of exactly that size. *)
Theorem check_update_offers_latest (w : World) (request : CheckRequest) :
  let current_version := or_default (current_version_arg request) "0.0.0" in
  reachable w →
  parseable_keys (load_versions w) →
  (∃ k', k' ∈ keys (load_versions w) ∧ version_gt k' current_version = Ok true) →
  ∃ k info changelog data,
    first_max (load_versions w) k info
    ∧ version_gt k current_version = Ok true
    ∧ Info.changelog info = Some changelog
    ∧ files w !! artifact_path k = Some data
    ∧ check_update w request
      = (UpdateInfo k changelog
           (scheme request +:+ "://" +:+ host request +:+ "/update/download/"
              +:+ k)
           (Z.of_nat (length data)),
         200%Z)
    ∧ download_update w k
      = (Attachment data true "MoneyBot.exe" "application/octet-stream", 200%Z).
Proof.
  intros cv Hreach Hkeys (k' & Hk' & Hgt').
  pose proof (reachable_world_inv w Hreach) as Hwinv.
  pose proof (world_inv_store_inv w Hwinv) as Hinv.
  assert (Hne : load_versions w ≠ []).
  { intros E. rewrite E in Hk'. inversion Hk'. }
  destruct (get_latest_version_first_max w Hne Hkeys)
    as (k & info & Hscan & Hmax).
  destruct (first_max_greatest _ _ _ Hkeys Hmax) as [Hin Hgreatest].
  assert (Hgt : version_gt k cv = Ok true).
  { eapply version_ge_gt_trans; [apply Hgreatest, Hk' | exact Hgt']. }
  destruct (proj2 Hwinv k info Hin) as (changelog & data & mtime & Hinfo & Hfile).
  destruct (world_inv_download w k info Hwinv Hin) as (data' & Hfile' & _ & Hdl).
  assert (data' = data) as -> by congruence.
  exists k, info, changelog, data.
  split; [exact Hmax|]. split; [exact Hgt|].
  split; [rewrite Hinfo; reflexivity|]. split; [exact Hfile|].
  split; [|exact Hdl].
  unfold check_update. fold cv. rewrite Hscan. simpl bind.
  rewrite (store_inv_not_empty _ _ _ Hinv Hin), (Hinv k info Hin).
  simpl or_default. rewrite Hgt. simpl bind. cbv iota.
  rewrite Hinfo. reflexivity.
Qed.

Lemma check_update_offers_latest_witness :
  ∃ k info changelog data,
    first_max (load_versions world_three) k info
    ∧ version_gt k "1.0.9" = Ok true
    ∧ Info.changelog info = Some changelog
    ∧ files world_three !! artifact_path k = Some data
    ∧ check_update world_three (check_of (Some "1.0.9"))
      = (UpdateInfo k changelog
           ("https" +:+ "://" +:+ "updates.example" +:+ "/update/download/"
              +:+ k)
           (Z.of_nat (length data)),
         200%Z)
    ∧ download_update world_three k
      = (Attachment data true "MoneyBot.exe" "application/octet-stream", 200%Z).
Proof.
  apply (check_update_offers_latest world_three (check_of (Some "1.0.9"))
           reachable_world_three parseable_keys_world_three).
  exists "1.0.10". split; [|reflexivity].
  change ("1.0.10" ∈ ["1.0.9"; "1.0.10"; "1.0.2"]).
  apply list_elem_of_further, list_elem_of_here.
Defined.



(** ** Upload, then check *)

(** X10. In a world the service can reach, after an upload answered 200
    of a version greater than every other stored version, a client whose
    current version is below it is offered exactly that upload: its
    version, its changelog (the default text when the form had none),
    its download URL and the length of the uploaded file. *)
Theorem upload_then_check (w : World) (upload : UploadRequest)
    (request : CheckRequest) (version : string) (file : FileStorage) :
  let current_version := or_default (current_version_arg request) "0.0.0" in
  reachable w →
  status (snd (upload_update w upload)) = 200%Z →
  version_field upload = Some version →
  file_part upload = Some file →
  (∀ k, k ∈ keys (load_versions w) → k ≠ version →
        version_gt version k = Ok true) →
  version_gt version current_version = Ok true →
  check_update (fst (upload_update w upload)) request
  = (UpdateInfo version
       (or_default (changelog_field upload) "Nova atualização")
       (scheme request +:+ "://" +:+ host request +:+ "/update/download/"
          +:+ version)
       (Z.of_nat (length (content file))),
     200%Z).
Proof.
  intros cv Hreach H200 Hver Hfile Hnewest Hgt.
  destruct (upload_update_ok w upload H200) as (version' & file' & Hacc).
  assert (version' = version ∧ file' = file) as [-> ->].
  { destruct Hacc as (_ & Hver' & _ & Hfile' & _). split; congruence. }
  pose proof (reachable_step w (PostUpload upload) Hreach) as Hreach'.
  cbn [handle] in Hreach'.
  pose proof (reachable_world_inv _ Hreach') as Hwinv.
  pose proof (world_inv_store_inv _ Hwinv) as Hinv.
  revert Hwinv Hinv. rewrite (upload_update_accepted w _ _ _ Hacc). cbn [fst].
  set (w' := mkWorld _ _). intros Hwinv Hinv.
  assert (Hload : load_versions w'
                  = dict_set (load_versions w) version
                      (uploaded_info version upload file)) by reflexivity.
  destruct (version_gt_Ok_inv _ _ _ Hgt) as (vv & vc & Hvv & Hvc & _).
  assert (Hkeys : parseable_keys (load_versions w')).
  { intros k Hk. rewrite Hload in Hk. apply keys_dict_set_elem in Hk as [->|Hk].
    - eauto.
    - destruct (decide (k = version)) as [->|Hne]; [eauto|].
      destruct (version_gt_Ok_inv _ _ _ (Hnewest k Hk Hne)) as (_ & vk & _ & Hk' & _).
      eauto. }
  assert (Hne : load_versions w' ≠ []).
  { rewrite Hload. destruct (load_versions w) as [|[k1 i1] d]; simpl;
      [discriminate | destruct (String.eqb k1 version); discriminate]. }
  destruct (get_latest_version_first_max w' Hne Hkeys)
    as (k & info & Hscan & Hmax).
  destruct (first_max_greatest _ _ _ Hkeys Hmax) as [Hin Hgreatest].
  assert (Hvin : version ∈ keys (load_versions w')).
  { rewrite Hload. apply keys_dict_set_elem. left. reflexivity. }
  assert (k = version) as ->.
  { destruct (decide (k = version)) as [E|Hk]; [exact E|]. exfalso.
    pose proof (list_elem_of_fmap_2 fst _ _ Hin) as Hkin.
    change (k ∈ keys (load_versions w')) in Hkin.
    rewrite Hload in Hkin. apply keys_dict_set_elem in Hkin as [E|Hkin];
      [contradiction|].
    pose proof (Hnewest k Hkin Hk) as H1.
    pose proof (Hgreatest version Hvin) as H2. congruence. }
  assert (info = uploaded_info version upload file) as ->.
  { pose proof (dict_get_elem_NoDup _ _ _ (proj1 Hwinv) Hin) as Hget.
    rewrite Hload, dict_get_set_eq in Hget. congruence. }
  unfold check_update. fold cv. rewrite Hscan. simpl bind.
  cbn [Info.is_empty uploaded_info Info.version Info.changelog Info.file_path
       Info.file_size Info.uploaded_at or_default].
  rewrite Hgt. reflexivity.
Qed.

Lemma upload_then_check_witness :
  check_update
    (fst (upload_update world_three (upload_of "1.0.11" (Some "Correções"))))
    (check_of (Some "1.0.10"))
  = (UpdateInfo "1.0.11" "Correções"
       ("https" +:+ "://" +:+ "updates.example" +:+ "/update/download/"
          +:+ "1.0.11")
       (Z.of_nat (length (content sample_file))),
     200%Z).
Proof.
  apply (upload_then_check world_three (upload_of "1.0.11" (Some "Correções"))
           (check_of (Some "1.0.10")) "1.0.11" sample_file
           reachable_world_three eq_refl eq_refl eq_refl);
    [|reflexivity].
  intros k Hk _. change (k ∈ ["1.0.9"; "1.0.10"; "1.0.2"]) in Hk.
  repeat (apply elem_of_cons in Hk as [->|Hk]; [reflexivity|]). inversion Hk.
Defined.

(** ** GET / *)

(** X11. The index page answers with no version when the store is empty;
    on a store whose keys all parse it names the first of the greatest
    stored versions, the one a check offers; and when the scan raises
    (two or more keys, one of which does not parse) the exception is not
    caught and the answer is the framework's 500. *)
Theorem index_reports_latest (w : World) :
  reachable w →
  (load_versions w = [] → index w = (NoVersions, 200%Z))
  ∧ (load_versions w ≠ [] → parseable_keys (load_versions w) →
     ∃ k info,
       first_max (load_versions w) k info
       ∧ index w = (ServiceInfo (Some k), 200%Z))
  ∧ ((2 <= length (load_versions w))%nat →
     (∃ k, k ∈ keys (load_versions w) ∧ unparseable k) →
     index w = (InternalServerError, 500%Z)).
Proof.
  intros Hreach.
  pose proof (world_inv_store_inv w (reachable_world_inv w Hreach)) as Hinv.
  split; [|split].
  - intros Hempty. unfold index, get_latest_version. rewrite Hempty. reflexivity.
  - intros Hne Hkeys.
    destruct (get_latest_version_first_max w Hne Hkeys)
      as (k & info & Hscan & Hmax).
    destruct (first_max_greatest _ _ _ Hkeys Hmax) as [Hin _].
    exists k, info. split; [exact Hmax|].
    unfold index. rewrite Hscan.
    rewrite (store_inv_not_empty _ _ _ Hinv Hin), (Hinv k info Hin). reflexivity.
  - intros Hlen Hbad.
    destruct (get_latest_version_unparseable w Hbad Hlen) as [e He].
    unfold index. rewrite He. reflexivity.
Qed.

Lemma index_reports_latest_witness :
  index initial = (NoVersions, 200%Z)
  ∧ (∃ k info,
        first_max (load_versions world_three) k info
        ∧ index world_three = (ServiceInfo (Some k), 200%Z))
  ∧ index (fst (upload_update world_1_0_0 (upload_of "banana" None)))
    = (InternalServerError, 500%Z).
Proof.
  split; [|split].
  - exact (proj1 (index_reports_latest initial reachable_initial) eq_refl).
  - apply (proj1 (proj2 (index_reports_latest world_three reachable_world_three)));
      [discriminate | exact parseable_keys_world_three].
  - apply (proj2 (proj2 (index_reports_latest
                           (fst (upload_update world_1_0_0 (upload_of "banana" None)))
                           (reachable_step world_1_0_0
                              (PostUpload (upload_of "banana" None))
                              reachable_world_1_0_0)))).
    + change (2 <= 2)%nat. lia.
    + exists "banana". split; [|reflexivity].
      change ("banana" ∈ ["1.0.0"; "banana"]).
      apply list_elem_of_further, list_elem_of_here.
Defined.

(** ** The answers of an upload *)

(** The tests of [upload_update] in the order it makes them. *)
Lemma upload_update_outcomes (w : World) (request : UploadRequest) :
  (key_field request ≠ Some UPLOAD_KEY
   ∧ upload_update w request = (w, (Error "Chave inválida", 401%Z)))
  ∨ (key_field request = Some UPLOAD_KEY
     ∧ (version_field request = None ∨ version_field request = Some "")
     ∧ upload_update w request = (w, (Error "Versão não fornecida", 400%Z)))
  ∨ (key_field request = Some UPLOAD_KEY
     ∧ (∃ version, version_field request = Some version ∧ version ≠ "")
     ∧ file_part request = None
     ∧ upload_update w request = (w, (Error "Arquivo não fornecido", 400%Z)))
  ∨ (key_field request = Some UPLOAD_KEY
     ∧ (∃ version, version_field request = Some version ∧ version ≠ "")
     ∧ (∃ file, file_part request = Some file ∧ filename file = "")
     ∧ upload_update w request = (w, (Error "Arquivo vazio", 400%Z)))
  ∨ (key_field request = Some UPLOAD_KEY
     ∧ (∃ version, version_field request = Some version ∧ version ≠ "")
     ∧ (∃ file, file_part request = Some file ∧ filename file ≠ "")
     ∧ ∃ e, upload_update w request = (w, (ErrorOf e, 500%Z)))
  ∨ (∃ version file,
        accepted request version file
        ∧ status (snd (upload_update w request)) = 200%Z).
Proof.
  unfold upload_update.
  destruct (bool_decide (key_field request = Some UPLOAD_KEY)) eqn:Hkey;
    simpl negb; cbv iota.
  2:{ left. apply bool_decide_eq_false_1 in Hkey. split; [exact Hkey | reflexivity]. }
  apply bool_decide_eq_true_1 in Hkey. right.
  destruct (version_field request) as [version|] eqn:Hver;
    [|left; split; [exact Hkey|]; split; [left|]; reflexivity].
  destruct (String.eqb_spec version "") as [->|Hne];
    [left; split; [exact Hkey|]; split; [right|]; reflexivity|].
  right.
  destruct (file_part request) as [file|] eqn:Hfile;
    [|left; split; [exact Hkey|]; split; [eauto|]; split; reflexivity].
  right.
  destruct (String.eqb_spec (filename file) "") as [Hfn|Hfn];
    [left; split; [exact Hkey|]; split; [eauto|]; split; [eauto | reflexivity]|].
  right.
  unfold file_save.
  destruct (has_char 0 (artifact_name version)) eqn:H0;
    [left; split; [exact Hkey|]; split; [eauto|]; split; eauto|].
  destruct (has_char 47 (artifact_name version)) eqn:H47;
    [left; split; [exact Hkey|]; split; [eauto|]; split; eauto|].
  right. exists version, file. split; [|reflexivity].
  repeat split; assumption.
Qed.

(** X12. An upload is answered 401, 400, 500 or 200.  It is answered 401
    exactly when the key is not the shared secret, whatever else the
    form holds; 400 exactly when the key is right and the version is
    missing or empty, or the file part is missing, or its file name is
    empty; and whenever the answer is not 200 the store and the files
    are what they were. *)
Theorem upload_update_answers (w : World) (request : UploadRequest) :
  (status (snd (upload_update w request)) = 401%Z
   ↔ key_field request ≠ Some UPLOAD_KEY)
  ∧ (status (snd (upload_update w request)) = 400%Z
     ↔ key_field request = Some UPLOAD_KEY
       ∧ (version_field request = None ∨ version_field request = Some ""
          ∨ file_part request = None
          ∨ ∃ file, file_part request = Some file ∧ filename file = ""))
  ∧ (status (snd (upload_update w request)) ≠ 200%Z →
     fst (upload_update w request) = w)
  ∧ (status (snd (upload_update w request)) = 401%Z
     ∨ status (snd (upload_update w request)) = 400%Z
     ∨ status (snd (upload_update w request)) = 500%Z
     ∨ status (snd (upload_update w request)) = 200%Z).
Proof.
  destruct (upload_update_outcomes w request)
    as [[Hkey ->]
       |[(Hkey & Hver & ->)
        |[(Hkey & (v & Hver & Hv) & Hfile & ->)
         |[(Hkey & (v & Hver & Hv) & (f & Hfile & Hfn) & ->)
          |[(Hkey & (v & Hver & Hv) & (f & Hfile & Hfn) & e & ->)
           |(v & f & Hacc & H200)]]]]].
  - split; [split; [intros _; exact Hkey | reflexivity]|].
    split; [split; [discriminate | intros [Hk _]; contradiction]|].
    split; [reflexivity | left; reflexivity].
  - split; [split; [discriminate | intros Hk; contradiction]|].
    split; [split; [intros _; split; [exact Hkey | tauto] | reflexivity]|].
    split; [reflexivity | right; left; reflexivity].
  - split; [split; [discriminate | intros Hk; contradiction]|].
    split; [split; [intros _; split; [exact Hkey | tauto] | reflexivity]|].
    split; [reflexivity | right; left; reflexivity].
  - split; [split; [discriminate | intros Hk; contradiction]|].
    split; [split; [intros _; split; [exact Hkey | eauto 6] | reflexivity]|].
    split; [reflexivity | right; left; reflexivity].
  - split; [split; [discriminate | intros Hk; contradiction]|].
    split.
    { split; [discriminate|].
      intros [_ [H|[H|[H|(f' & H & H')]]]]; congruence. }
    split; [reflexivity | right; right; left; reflexivity].
  - destruct Hacc as (Hkey & Hver & Hv & Hfile & Hfn & H0 & H47).
    rewrite H200.
    split; [split; [discriminate | intros Hk; contradiction]|].
    split.
    { split; [discriminate|].
      intros [_ [H|[H|[H|(f' & H & H')]]]]; congruence. }
    split; [intros H; contradiction | right; right; right; reflexivity].
Qed.

Lemma upload_update_answers_witness :
  status (snd (upload_update world_1_0_0
                 (mkUploadRequest (Some UPLOAD_KEY) (Some "") None None "0.0")))
  = 400%Z
  ∧ fst (upload_update world_1_0_0
           (mkUploadRequest (Some UPLOAD_KEY) (Some "") None None "0.0"))
    = world_1_0_0.
Proof.
  destruct (upload_update_answers world_1_0_0
              (mkUploadRequest (Some UPLOAD_KEY) (Some "") None None "0.0"))
    as (_ & H400 & Hsame & _).
  split.
  - apply H400. split; [reflexivity | right; left; reflexivity].
  - apply Hsame. discriminate.
Defined.

(** ** Nothing is ever removed *)

(** X13. No request removes anything: after any request, every version
    that was a key of the store is still one, at the same place among
    the keys that were there, and every file that existed still exists.
    The service has no way to withdraw a published version. *)
Theorem handle_keeps_published (w : World) (r : Request) :
  (∃ added, keys (load_versions (fst (handle w r)))
            = keys (load_versions w) ++ added)
  ∧ (∀ k, k ∈ keys (load_versions w) →
          k ∈ keys (load_versions (fst (handle w r))))
  ∧ (∀ path, is_Some (files w !! path) →
             is_Some (files (fst (handle w r)) !! path)).
Proof.
  assert (Hsame : fst (handle w r) = w →
    (∃ added, keys (load_versions (fst (handle w r)))
              = keys (load_versions w) ++ added)
    ∧ (∀ k, k ∈ keys (load_versions w) →
            k ∈ keys (load_versions (fst (handle w r))))
    ∧ (∀ path, is_Some (files w !! path) →
               is_Some (files (fst (handle w r)) !! path))).
  { intros ->. split; [exists []; rewrite app_nil_r; reflexivity|].
    split; auto. }
  destruct r as [c|v|u| |]; try (apply Hsame; reflexivity).
  destruct (upload_update_cases w u) as [(version & file & Hacc)|[Hw _]];
    [|apply Hsame; exact Hw].
  cbn [handle]. rewrite (upload_update_accepted w _ _ _ Hacc).
  cbn [fst load_versions versions_file files]. fold (load_versions w).
  split; [|split].
  - destruct (decide (version ∈ keys (load_versions w))) as [Hin|Hnin].
    + exists []. rewrite keys_dict_set_in, app_nil_r by exact Hin. reflexivity.
    + exists [version]. apply keys_dict_set_notin, Hnin.
  - intros k Hk. apply keys_dict_set_elem. right. exact Hk.
  - intros path Hpath.
    destruct (decide (artifact_path version = path)) as [<-|Hne].
    + rewrite lookup_insert_eq. eauto.
    + rewrite lookup_insert_ne by exact Hne. exact Hpath.
Qed.

Lemma handle_keeps_published_witness :
  "1.0.9" ∈ keys (load_versions
                    (fst (handle world_three
                            (PostUpload (upload_of "1.0.9" (Some "Correções"))))))
  ∧ is_Some (files (fst (handle world_three
                           (PostUpload (upload_of "3.0.0" None))))
               !! "updates/MoneyBot_1.0.2.exe").
Proof.
  split.
  - apply (proj1 (proj2 (handle_keeps_published world_three
                           (PostUpload (upload_of "1.0.9" (Some "Correções")))))).
    change ("1.0.9" ∈ ["1.0.9"; "1.0.10"; "1.0.2"]). apply list_elem_of_here.
  - apply (proj2 (proj2 (handle_keeps_published world_three
                           (PostUpload (upload_of "3.0.0" None))))).
    eexists. reflexivity.
Defined.
